(** * smartthings_exporter: the metric life cycle and the poll loop

    A shallow embedding of [smartthings_exporter.py]: the [SmartThingsMetric]
    handle ([set], [clear]), the [Worker] registry ([create_new_metric],
    [get_metric_by_payload_key]), the expiration sweep
    ([clear_expired_metrics]) and the poll loop ([loop], [stop]).

    Python objects become records, the worker's list of handles is a list
    whose positions are the object identities, exceptions are explicit
    results, and the log records and gauge updates the program makes are
    collected in a trace.  The session set-up that precedes the [while]
    loop, and exceptions that do not derive from [Exception] (a keyboard
    interrupt, a cancellation), are outside the model. *)

From Stdlib Require Import ZArith Lia Ascii.
From stdpp Require Import base option list gmap strings relations.

Local Open Scope string_scope.
Local Open Scope Z_scope.
Local Open Scope list_scope.

(** ** Values, exceptions and the platform *)

(** The values a device status can hold for a field: JSON null / an absent
    key ([None]), an integer, or a string such as ["on"].  Numbers are
    integers in this model; floating point values are left out. *)
Inductive pyval : Type :=
  | VNone
  | VInt (n : Z)
  | VStr (s : string).

#[global] Instance pyval_eq_dec : EqDecision pyval.
Proof. solve_decision. Defined.

(** Python's [a != b] on these values. *)
Definition py_ne (a b : pyval) : bool := bool_decide (a ≠ b).

(** The exception classes that occur; all of them derive from [Exception]. *)
Inductive exn : Type :=
  | TypeError
  | ValueError
  | AttributeError
  | SmartThingsMetricException
  | ClientError (msg : string).

#[global] Instance exn_eq_dec : EqDecision exn.
Proof. solve_decision. Defined.

Inductive Result (A : Type) : Type :=
  | Val (a : A)
  | Raise (e : exn).
Arguments Val {A} a.
Arguments Raise {A} e.

(** What the program takes from outside the repository: the wall clock
    ([time_time n] is what the [n]-th call of [time.time()] returns), the
    number a string converts to under [float] (when it converts), and
    whether the constructor of a [Gauge] of a given name raises. *)
Record Platform : Type := {
  time_time : nat → Z;
  float_of_str : string → option Z;
  Gauge_init : string → option exn;
}.

(** ** The trace of collaborator calls *)

Inductive level : Type := DEBUG | INFO | ERROR.

Inductive logmsg : Type :=
  | MsgSet (name : string) (value : pyval)
  | MsgClear (name : string)
  | MsgErrorProcessing (error : exn)
  | MsgClearedExpired (name : string)
  | MsgCreated (payload_key name : string)
  | MsgException (error : exn)
  | MsgFound (name payload_key : string)
  | MsgCannotFind (payload_key : string).

Inductive event : Type :=
  | Log (lvl : level) (msg : logmsg)
  | GaugeSet (name label : string) (x : Z)
  | GaugeClear (name : string).

#[global] Instance level_eq_dec : EqDecision level.
Proof. solve_decision. Defined.
#[global] Instance logmsg_eq_dec : EqDecision logmsg.
Proof. solve_decision. Defined.
#[global] Instance event_eq_dec : EqDecision event.
Proof. solve_decision. Defined.

(** The part of the process state that is not an object of the program:
    how many times the clock has been read, and what has been emitted. *)
Record Sys : Type := {
  ticks : nat;
  trace : list event;
}.

Definition emit (ev : event) (s : Sys) : Sys :=
  {| ticks := ticks s; trace := trace s ++ [ev] |}.

Definition now (E : Platform) (s : Sys) : Z * Sys :=
  (time_time E (ticks s), {| ticks := S (ticks s); trace := trace s |}).

(** ** prometheus_client.Gauge, as the program uses it *)

Module Gauge.

(** A gauge holds one number per label value: it is a [gmap string Z]. *)

(** [float(value)], which [Gauge.set] applies to its argument. *)
Definition float (E : Platform) (value : pyval) : Result Z :=
  match value with
  | VNone => Raise TypeError
  | VInt n => Val n
  | VStr s =>
      match float_of_str E s with
      | Some x => Val x
      | None => Raise ValueError
      end
  end.

(** [gauge.labels(device=label)] creates the child of that label, at 0,
    when the gauge does not have it yet. *)
Definition labels (label : string) (g : gmap string Z) : gmap string Z :=
  match g !! label with
  | Some _ => g
  | None => <[label := 0]> g
  end.

(** [gauge.labels(device=label).set(value)]: the number stored or the
    exception of [float], and the gauge after the call.  The child exists
    by the time [float] is applied. *)
Definition labels_set (E : Platform) (label : string) (value : pyval)
    (g : gmap string Z) : Result Z * gmap string Z :=
  let g := labels label g in
  match float E value with
  | Val x => (Val x, <[label := x]> g)
  | Raise e => (Raise e, g)
  end.

(** [gauge.clear()] removes every labelled child. *)
Definition clear (g : gmap string Z) : gmap string Z := ∅.

End Gauge.

(** ** class SmartThingsMetric *)

Module SmartThingsMetric.

Record t : Type := {
  payload_key : string;
  device_name : string;
  name : string;
  metric : gmap string Z;
  value : pyval;
  last_update_time : option Z;
}.

(** [__init__]: the gauge constructor may raise; otherwise the handle
    starts with no value and no update time. *)
Definition init (E : Platform) (payload_key device_name : string) : Result t :=
  let name := "smartthings_" +:+ payload_key in
  match Gauge_init E name with
  | Some e => Raise e
  | None =>
      Val {| payload_key := payload_key;
             device_name := device_name;
             name := name;
             metric := ∅;
             value := VNone;
             last_update_time := None |}
  end.

Definition with_metric (g : gmap string Z) (self : t) : t :=
  {| payload_key := payload_key self; device_name := device_name self;
     name := name self; metric := g; value := value self;
     last_update_time := last_update_time self |}.

Definition with_value (v : pyval) (self : t) : t :=
  {| payload_key := payload_key self; device_name := device_name self;
     name := name self; metric := metric self; value := v;
     last_update_time := last_update_time self |}.

Definition with_last_update_time (u : option Z) (self : t) : t :=
  {| payload_key := payload_key self; device_name := device_name self;
     name := name self; metric := metric self; value := value self;
     last_update_time := u |}.

(** [set(self, value)]. *)
Definition set (E : Platform) (v : pyval) (self : t) (s : Sys)
    : Result unit * t * Sys :=
  let s := emit (Log DEBUG (MsgSet (name self) v)) s in
  if py_ne (value self) v then
    match Gauge.labels_set E (device_name self) v (metric self) with
    | (Raise e, g) => (Raise e, with_metric g self, s)
    | (Val x, g) =>
        let s := emit (GaugeSet (name self) (device_name self) x) s in
        let self := with_metric g self in
        let self := with_value v self in
        let '(t, s) := now E s in
        (Val tt, with_last_update_time (Some t) self, s)
    end
  else (Val tt, self, s).

(** [clear(self)]. *)
Definition clear (E : Platform) (self : t) (s : Sys) : t * Sys :=
  let s := emit (Log DEBUG (MsgClear (name self))) s in
  let self := with_metric (Gauge.clear (metric self)) self in
  let s := emit (GaugeClear (name self)) s in
  let '(t, s) := now E s in
  (with_last_update_time (Some t) self, s).

End SmartThingsMetric.

(** ** class Worker *)

Module Worker.

Record t : Type := {
  smartthings_token : string;
  device_id : string;
  device_name : string;
  device_metrics : list string;
  collecting_interval_seconds : Z;
  metrics_collector : list (option SmartThingsMetric.t);
  expiration_threshold : Z;
  running : bool;
}.

(** [__init__], with its two defaults left to the caller. *)
Definition init (smartthings_token device_id device_name : string)
    (device_metrics : list string)
    (collecting_interval_seconds expiration_threshold : Z) : t :=
  {| smartthings_token := smartthings_token;
     device_id := device_id;
     device_name := device_name;
     device_metrics := device_metrics;
     collecting_interval_seconds := collecting_interval_seconds;
     metrics_collector := [];
     expiration_threshold := expiration_threshold;
     running := true |}.

Definition with_metrics_collector (l : list (option SmartThingsMetric.t))
    (self : t) : t :=
  {| smartthings_token := smartthings_token self;
     device_id := device_id self;
     device_name := device_name self;
     device_metrics := device_metrics self;
     collecting_interval_seconds := collecting_interval_seconds self;
     metrics_collector := l;
     expiration_threshold := expiration_threshold self;
     running := running self |}.

Definition with_running (b : bool) (self : t) : t :=
  {| smartthings_token := smartthings_token self;
     device_id := device_id self;
     device_name := device_name self;
     device_metrics := device_metrics self;
     collecting_interval_seconds := collecting_interval_seconds self;
     metrics_collector := metrics_collector self;
     expiration_threshold := expiration_threshold self;
     running := b |}.

(** *** Methods as state transformers

    A method receives the worker and the system state and hands both back
    together with its result or the exception it raised; what was mutated
    before a raise stays mutated. *)
Definition Proc (A : Type) : Type := t → Sys → Result A * t * Sys.

Definition ret {A} (a : A) : Proc A := λ w s, (Val a, w, s).

Definition raise {A} (e : exn) : Proc A := λ w s, (Raise e, w, s).

Definition bind {A B} (p : Proc A) (k : A → Proc B) : Proc B :=
  λ w s,
    match p w s with
    | (Val a, w', s') => k a w' s'
    | (Raise e, w', s') => (Raise e, w', s')
    end.

(** [try: p  except Exception as error: h error]. *)
Definition try_except {A} (p : Proc A) (h : exn → Proc A) : Proc A :=
  λ w s,
    match p w s with
    | (Val a, w', s') => (Val a, w', s')
    | (Raise e, w', s') => h e w' s'
    end.

Definition log (lvl : level) (msg : logmsg) : Proc unit :=
  λ w s, (Val tt, w, emit (Log lvl msg) s).

Declare Scope proc_scope.
Delimit Scope proc_scope with proc.
Notation "x <~ p ;; k" := (bind p (λ x, k))
  (at level 100, p at next level, right associativity) : proc_scope.
Notation "p ;; k" := (bind p (λ _, k))
  (at level 100, right associativity) : proc_scope.
Local Open Scope proc_scope.

(** [stop(self)]. *)
Definition stop (self : t) : t := with_running false self.

(** [create_new_metric(self, payload_key)]: only
    [SmartThingsMetricException] is caught. *)
Definition create_new_metric (E : Platform) (payload_key : string)
    : Proc (option SmartThingsMetric.t) :=
  λ w s,
    match SmartThingsMetric.init E payload_key (device_name w) with
    | Val metric =>
        (log INFO (MsgCreated (SmartThingsMetric.payload_key metric)
                              (SmartThingsMetric.name metric)) ;;
         ret (Some metric)) w s
    | Raise SmartThingsMetricException =>
        (log ERROR (MsgException SmartThingsMetricException) ;;
         ret None) w s
    | Raise e => raise e w s
    end.

(** [next((metric for metric in l if metric.payload_key == payload_key),
    None)]: the position of the first handle with that key.  Reading
    [payload_key] from an entry that is [None] raises. *)
Fixpoint find_metric (payload_key : string)
    (l : list (option SmartThingsMetric.t))
    : Result (option (nat * SmartThingsMetric.t)) :=
  match l with
  | [] => Val None
  | None :: _ => Raise AttributeError
  | Some metric :: l' =>
      if decide (SmartThingsMetric.payload_key metric = payload_key)
      then Val (Some (0%nat, metric))
      else match find_metric payload_key l' with
           | Val (Some (i, found)) => Val (Some (S i, found))
           | Val None => Val None
           | Raise e => Raise e
           end
  end.

(** [get_metric_by_payload_key(self, payload_key)].  The handle that is
    returned is the object stored at the returned position of
    [metrics_collector]; [None] is returned when the new entry is [None]. *)
Definition get_metric_by_payload_key (E : Platform) (payload_key : string)
    : Proc (option nat) :=
  λ w s,
    match find_metric payload_key (metrics_collector w) with
    | Raise e => raise e w s
    | Val (Some (i, metric)) =>
        (log DEBUG (MsgFound (SmartThingsMetric.name metric) payload_key) ;;
         ret (Some i)) w s
    | Val None =>
        (log DEBUG (MsgCannotFind payload_key) ;;
         metric <~ create_new_metric E payload_key ;;
         (λ w s,
            let i := length (metrics_collector w) in
            (Val (match metric with Some _ => Some i | None => None end),
             with_metrics_collector (metrics_collector w ++ [metric]) w,
             s))) w s
    end.

(** [metric.set(value)] on the handle stored at position [i]. *)
Definition set_at (E : Platform) (i : nat) (value : pyval) : Proc unit :=
  λ w s,
    match metrics_collector w !! i with
    | Some (Some metric) =>
        let '(r, metric', s') := SmartThingsMetric.set E value metric s in
        (r, with_metrics_collector (<[i := Some metric']> (metrics_collector w)) w, s')
    | _ => raise AttributeError w s
    end.

(** [device.status.values.get(payload_key)]. *)
Definition values_get (values : gmap string pyval) (payload_key : string)
    : pyval :=
  default VNone (values !! payload_key).

(** The body of [for payload_key in self.device_metrics], for one key. *)
Definition update_metric (E : Platform) (values : gmap string pyval)
    (payload_key : string) : Proc unit :=
  metric <~ get_metric_by_payload_key E payload_key ;;
  match metric with
  | Some i => set_at E i (values_get values payload_key)
  | None => ret tt
  end.

Fixpoint update_metrics (E : Platform) (values : gmap string pyval)
    (keys : list string) : Proc unit :=
  match keys with
  | [] => ret tt
  | payload_key :: keys' =>
      update_metric E values payload_key ;;
      update_metrics E values keys'
  end.

(** How [await device.status.refresh()] ended. *)
Inductive refresh : Type :=
  | Refreshed (values : gmap string pyval)
  | RefreshFailed (error : exn).

(** The [try ... except Exception] of one iteration, from the moment the
    refresh has ended. *)
Definition process_status (E : Platform) (r : refresh) : Proc unit :=
  try_except
    (match r with
     | RefreshFailed error => raise error
     | Refreshed values =>
         λ w s, update_metrics E values (device_metrics w) w s
     end)
    (λ error, log ERROR (MsgErrorProcessing error)).

(** The test and body of the loop in [clear_expired_metrics], for one
    entry of the list. *)
Definition sweep_one (E : Platform) (current_time threshold : Z)
    (entry : option SmartThingsMetric.t) (s : Sys)
    : Result unit * option SmartThingsMetric.t * Sys :=
  match entry with
  | None => (Raise AttributeError, entry, s)
  | Some metric =>
      match SmartThingsMetric.last_update_time metric with
      | None => (Raise TypeError, entry, s)
      | Some u =>
          if current_time - u >? threshold then
            let '(metric', s) := SmartThingsMetric.clear E metric s in
            let s := emit (Log INFO (MsgClearedExpired
                                       (SmartThingsMetric.name metric'))) s in
            (Val tt, Some metric', s)
          else (Val tt, entry, s)
      end
  end.

Fixpoint sweep (E : Platform) (current_time threshold : Z)
    (l : list (option SmartThingsMetric.t)) (s : Sys)
    : Result unit * list (option SmartThingsMetric.t) * Sys :=
  match l with
  | [] => (Val tt, [], s)
  | entry :: l' =>
      match sweep_one E current_time threshold entry s with
      | (Val _, entry', s') =>
          let '(r, l'', s'') := sweep E current_time threshold l' s' in
          (r, entry' :: l'', s'')
      | (Raise e, entry', s') => (Raise e, entry' :: l', s')
      end
  end.

(** [clear_expired_metrics(self)]. *)
Definition clear_expired_metrics (E : Platform) : Proc unit :=
  λ w s,
    let '(current_time, s) := now E s in
    let '(r, l, s) :=
      sweep E current_time (expiration_threshold w) (metrics_collector w) s in
    (r, with_metrics_collector l w, s).

(** One iteration of the [while] loop between the end of the refresh and
    the start of the sleep. *)
Definition cycle (E : Platform) (r : refresh) : Proc unit :=
  process_status E r ;;
  clear_expired_metrics E.

(** *** The loop as a machine

    The coroutine is suspended at its two [await]s; between them it runs
    without interruption.  [stop] may be called by the rest of the
    process whenever the coroutine is not running. *)
Inductive pc : Type :=
  | AtTop
  | AwaitRefresh
  | AwaitSleep
  | Exited
  | Crashed (e : exn).

Record Machine : Type := {
  at_pc : pc;
  worker : t;
  sys : Sys;
}.

Inductive input : Type :=
  | Resume
  | RefreshDone (r : refresh)
  | SleepDone
  | StopCall.

Definition step_fn (E : Platform) (i : input) (m : Machine) : option Machine :=
  match i, at_pc m with
  | StopCall, p =>
      Some {| at_pc := p; worker := stop (worker m); sys := sys m |}
  | Resume, AtTop =>
      if running (worker m)
      then Some {| at_pc := AwaitRefresh; worker := worker m; sys := sys m |}
      else Some {| at_pc := Exited; worker := worker m; sys := sys m |}
  | RefreshDone r, AwaitRefresh =>
      match cycle E r (worker m) (sys m) with
      | (Val _, w, s) => Some {| at_pc := AwaitSleep; worker := w; sys := s |}
      | (Raise e, w, s) => Some {| at_pc := Crashed e; worker := w; sys := s |}
      end
  | SleepDone, AwaitSleep =>
      Some {| at_pc := AtTop; worker := worker m; sys := sys m |}
  | _, _ => None
  end.

Definition step (E : Platform) (m m' : Machine) : Prop :=
  ∃ i, step_fn E i m = Some m'.

Fixpoint run (E : Platform) (inputs : list input) (m : Machine)
    : option Machine :=
  match inputs with
  | [] => Some m
  | i :: inputs' =>
      match step_fn E i m with
      | Some m' => run E inputs' m'
      | None => None
      end
  end.

(** [loop] is entered with a fresh system state. *)
Definition loop_start (self : t) : Machine :=
  {| at_pc := AtTop; worker := self; sys := {| ticks := 0; trace := [] |} |}.

End Worker.

(** ** Vocabulary of the statements *)

(** A sequence of [set] calls on one handle; an exception ends it. *)
Fixpoint set_all (E : Platform) (vs : list pyval) (self : SmartThingsMetric.t)
    (s : Sys) : Result unit * SmartThingsMetric.t * Sys :=
  match vs with
  | [] => (Val tt, self, s)
  | v :: vs' =>
      match SmartThingsMetric.set E v self s with
      | (Val _, self', s') => set_all E vs' self' s'
      | (Raise e, self', s') => (Raise e, self', s')
      end
  end.

(** The values of a sequence that differ from their predecessor, the first
    one being compared with [cur]. *)
Fixpoint changes (cur : pyval) (vs : list pyval) : list pyval :=
  match vs with
  | [] => []
  | v :: vs' => if py_ne cur v then v :: changes v vs' else changes cur vs'
  end.

(** The numbers handed to the gauge, in the order of the calls. *)
Definition publishes (tr : list event) : list Z :=
  omap (λ ev, match ev with GaugeSet _ _ x => Some x | _ => None end) tr.

(** The numbers of the values the gauge accepts. *)
Definition floats (E : Platform) (vs : list pyval) : list Z :=
  omap (λ v, match Gauge.float E v with Val x => Some x | Raise _ => None end) vs.

Definition accepted (E : Platform) (v : pyval) : Prop :=
  ∃ x, Gauge.float E v = Val x.

(** The number a scrape sees for the handle's device, if any. *)
Definition published (self : SmartThingsMetric.t) : option Z :=
  SmartThingsMetric.metric self !! SmartThingsMetric.device_name self.

(** The test of the expiration sweep on a handle that has an update time. *)
Definition stale (current_time threshold : Z) (self : SmartThingsMetric.t)
    : bool :=
  match SmartThingsMetric.last_update_time self with
  | Some u => current_time - u >? threshold
  | None => false
  end.

(** No two handles of the list have the same [payload_key]. *)
Definition one_handle_per_key (l : list (option SmartThingsMetric.t)) : Prop :=
  ∀ i j m1 m2,
    l !! i = Some (Some m1) → l !! j = Some (Some m2) →
    SmartThingsMetric.payload_key m1 = SmartThingsMetric.payload_key m2 →
    i = j.

(** The keys of the handles of the list, position by position. *)
Definition keys (l : list (option SmartThingsMetric.t)) : list (option string) :=
  (λ x : option SmartThingsMetric.t, SmartThingsMetric.payload_key <$> x) <$> l.

Definition set_running (b : bool) (m : Worker.Machine) : Worker.Machine :=
  {| Worker.at_pc := Worker.at_pc m;
     Worker.worker := Worker.with_running b (Worker.worker m);
     Worker.sys := Worker.sys m |}.

Definition lift_running {A} (b : bool) (x : Result A * Worker.t * Sys)
    : Result A * Worker.t * Sys :=
  (x.1.1, Worker.with_running b x.1.2, x.2).

(** A method ignores the running flag when running it with the flag
    changed gives the same result, the flag being carried along. *)
Definition ignores_running {A} (p : Worker.Proc A) : Prop :=
  ∀ b w s, p (Worker.with_running b w) s = lift_running b (p w s).

(** ** Concrete inputs *)

(** A platform whose clock advances by 100 at every reading and on which
    every gauge can be constructed.  No string converts to a number; the
    only string used with it is ["on"]. *)
Definition plain : Platform :=
  {| time_time := λ n, 100 * Z.of_nat n;
     float_of_str := λ _, None;
     Gauge_init := λ _, None |}.


(** A platform whose clock shows 1000 at every reading. *)
Definition late : Platform :=
  {| time_time := λ _, 1000;
     float_of_str := λ _, None;
     Gauge_init := λ _, None |}.

Definition sys0 : Sys := {| ticks := 0; trace := [] |}.

Definition handle (payload_key : string) (g : gmap string Z) (v : pyval)
    (u : option Z) : SmartThingsMetric.t :=
  {| SmartThingsMetric.payload_key := payload_key;
     SmartThingsMetric.device_name := "lamp";
     SmartThingsMetric.name := "smartthings_" +:+ payload_key;
     SmartThingsMetric.metric := g;
     SmartThingsMetric.value := v;
     SmartThingsMetric.last_update_time := u |}.

Definition lamp (device_metrics : list string) : Worker.t :=
  Worker.init "token" "device-1" "lamp" device_metrics 30 300.




(** ** Start-up: the environment and the configuration part of [main] *)

Module Startup.

(** The one record the start-up code logs itself:
    [log.error(f"Environment variable {name} is required.")]. *)
Inductive record : Type :=
  | Required (name : string).

(** How the start-up code ends: with a value, with [sys.exit(code)], or
    with an exception nobody catches. *)
Inductive outcome (A : Type) : Type :=
  | Ok (a : A)
  | SystemExit (code : Z)
  | Uncaught (e : exn).
Arguments Ok {A} a.
Arguments SystemExit {A} code.
Arguments Uncaught {A} e.

(** [os.getenv(name, default)], the environment being a [gmap string string];
    [default] is [None] when the caller passes none. *)
Definition getenv (environ : gmap string string) (name : string)
    (default : option string) : option string :=
  match environ !! name with
  | Some value => Some value
  | None => default
  end.

(** [os.getenv(name, default)] where [default] is a [str]. *)
Definition getenv_str (environ : gmap string string) (name default : string)
    : string :=
  match environ !! name with
  | Some value => value
  | None => default
  end.

(** [load_env_variable(name, default)]. *)
Definition load_env_variable (environ : gmap string string) (name : string)
    (default : option string) : outcome string * list record :=
  match getenv environ name default with
  | None => (SystemExit 1, [Required name])
  | Some value => (Ok value, [])
  end.

(** [s.split(sep)] for a separator of one character. *)
Fixpoint split (sep : ascii) (s : string) : list string :=
  match s with
  | EmptyString => [EmptyString]
  | String c s' =>
      if decide (c = sep) then EmptyString :: split sep s'
      else match split sep s' with
           | part :: parts => String c part :: parts
           | [] => [String c EmptyString]
           end
  end.

(** What [main] hands on once the environment is read: the worker and the
    port of the exposition server. *)
Record Config : Type := {
  metrics : Worker.t;
  exporter_port : Z;
}.

(** [int(os.getenv(name, default))]; [int] is Python's conversion of a
    string, [None] standing for its [ValueError]. *)
Definition int_env (int : string → option Z) (environ : gmap string string)
    (name default : string) : outcome Z :=
  match int (getenv_str environ name default) with
  | Some n => Ok n
  | None => Uncaught ValueError
  end.

(** [main], from [device_id = load_env_variable("DEVICE_ID")] to the
    construction of the [Worker]. *)
Definition configure (int : string → option Z) (environ : gmap string string)
    : outcome Config * list record :=
  match load_env_variable environ "DEVICE_ID" None with
  | (Ok device_id, _) =>
      let device_name := getenv_str environ "DEVICE_NAME" device_id in
      match load_env_variable environ "DEVICE_METRICS" None with
      | (Ok device_metrics_str, _) =>
          let device_metrics := split ","%char device_metrics_str in
          match load_env_variable environ "SMARTTHINGS_TOKEN" None with
          | (Ok smartthings_token, _) =>
              match int_env int environ "EXPORTER_PORT" "9090" with
              | Ok exporter_port =>
                  match int_env int environ "COLLECTING_INTERVAL" "30" with
                  | Ok collecting_interval_seconds =>
                      match int_env int environ "EXPIRATION_THRESHOLD" "300" with
                      | Ok expiration_threshold =>
                          (Ok {| metrics :=
                                   Worker.init smartthings_token device_id
                                     device_name device_metrics
                                     collecting_interval_seconds
                                     expiration_threshold;
                                 exporter_port := exporter_port |}, [])
                      | SystemExit code => (SystemExit code, [])
                      | Uncaught e => (Uncaught e, [])
                      end
                  | SystemExit code => (SystemExit code, [])
                  | Uncaught e => (Uncaught e, [])
                  end
              | SystemExit code => (SystemExit code, [])
              | Uncaught e => (Uncaught e, [])
              end
          | (SystemExit code, records) => (SystemExit code, records)
          | (Uncaught e, records) => (Uncaught e, records)
          end
      | (SystemExit code, records) => (SystemExit code, records)
      | (Uncaught e, records) => (Uncaught e, records)
      end
  | (SystemExit code, records) => (SystemExit code, records)
  | (Uncaught e, records) => (Uncaught e, records)
  end.

End Startup.

(** ** Further vocabulary *)

(** [sep.join(parts)] for a separator of one character. *)
Fixpoint join (sep : ascii) (parts : list string) : string :=
  match parts with
  | [] => EmptyString
  | [part] => part
  | part :: parts' => part +:+ String sep (join sep parts')
  end.

(** The number of occurrences of a character in a string. *)
Fixpoint occurrences (c : ascii) (s : string) : nat :=
  match s with
  | EmptyString => 0
  | String c' s' => (if decide (c' = c) then 1 else 0) + occurrences c s'
  end.

(** An entry of the registry that is a handle with an update time. *)
Definition has_update_time (entry : option SmartThingsMetric.t) : Prop :=
  ∃ m u, entry = Some m ∧ SmartThingsMetric.last_update_time m = Some u.

(** Every entry of the registry is a handle with an update time. *)
Definition healthy (l : list (option SmartThingsMetric.t)) : Prop :=
  Forall has_update_time l.

(** Every key of the list has a handle in the registry. *)
Definition complete (ks : list string) (l : list (option SmartThingsMetric.t))
    : Prop :=
  ∀ k, k ∈ ks →
    ∃ i m, l !! i = Some (Some m) ∧ SmartThingsMetric.payload_key m = k.

(** The handles of the registry, in order. *)
Definition handles (l : list (option SmartThingsMetric.t))
    : list SmartThingsMetric.t :=
  omap id l.

(** The handle is one a worker of that device label constructs. *)
Definition well_formed (device_name : string) (m : SmartThingsMetric.t)
    : Prop :=
  SmartThingsMetric.name m = "smartthings_" +:+ SmartThingsMetric.payload_key m
  ∧ SmartThingsMetric.device_name m = device_name.

(** Every handle of the list has a key of [ks] and is one a worker of the
    label [d] constructs. *)
Definition registered (ks : list string) (d : string)
    (l : list (option SmartThingsMetric.t)) : Prop :=
  Forall (λ entry : option SmartThingsMetric.t,
            ∀ m, entry = Some m →
              SmartThingsMetric.payload_key m ∈ ks ∧ well_formed d m) l.

(** The test of the sweep on an entry, and the number of entries it
    selects. *)
Definition entry_stale (current_time threshold : Z)
    (entry : option SmartThingsMetric.t) : bool :=
  match entry with
  | Some m => stale current_time threshold m
  | None => false
  end.





(** The number of [GaugeClear] events of a trace. *)
Fixpoint clears (tr : list event) : nat :=
  match tr with
  | [] => 0
  | GaugeClear _ :: tr' => S (clears tr')
  | _ :: tr' => clears tr'
  end.

(** Everything of a worker but its registry and its running flag. *)
Definition same_settings (w w' : Worker.t) : Prop :=
  Worker.smartthings_token w' = Worker.smartthings_token w
  ∧ Worker.device_id w' = Worker.device_id w
  ∧ Worker.device_name w' = Worker.device_name w
  ∧ Worker.device_metrics w' = Worker.device_metrics w
  ∧ Worker.collecting_interval_seconds w' = Worker.collecting_interval_seconds w
  ∧ Worker.expiration_threshold w' = Worker.expiration_threshold w.

(** A status in which every key of the list has a value the gauge accepts,
    on a platform that can construct the handle of each of them. *)
Definition reports_all (E : Platform) (values : gmap string pyval)
    (ks : list string) : Prop :=
  ∀ k, k ∈ ks →
    accepted E (Worker.values_get values k)
    ∧ Gauge_init E ("smartthings_" +:+ k) = None.

(** Python's [int] on the strings used below: decimal digits only. *)
Definition digit_value (c : ascii) : option Z :=
  let n := Z.of_nat (nat_of_ascii c) in
  if decide (48 ≤ n ≤ 57) then Some (n - 48) else None.

Fixpoint decimal_from (acc : Z) (s : string) : option Z :=
  match s with
  | EmptyString => Some acc
  | String c s' =>
      match digit_value c with
      | Some d => decimal_from (10 * acc + d) s'
      | None => None
      end
  end.

Definition decimal (s : string) : option Z :=
  match s with
  | EmptyString => None
  | _ => decimal_from 0 s
  end.

(** A status that reports 1 for the key switch, and 2 for a key nobody
    configured. *)
Definition switch_on : gmap string pyval :=
  {["switch" := VInt 1; "other" := VInt 2]}.

(** The worker of the key switch once its handle has been published. *)
Definition lamp_polled : Worker.t :=
  Worker.with_metrics_collector
    [Some (handle "switch" {["lamp" := 1]} (VInt 1) (Some 0))]
    (lamp ["switch"]).

(** An environment with the three required variables and nothing else. *)
Definition minimal_environ : gmap string string :=
  {["DEVICE_ID" := "d1"; "DEVICE_METRICS" := "switch,level";
    "SMARTTHINGS_TOKEN" := "t"]}.

(** ** The handle: [set] and [clear] *)

Section Handle.

Variable E : Platform.

Lemma py_ne_true (a b : pyval) : py_ne a b = true ↔ a ≠ b.
Proof. unfold py_ne. apply bool_decide_eq_true. Qed.

Lemma py_ne_false (a b : pyval) : py_ne a b = false ↔ a = b.
Proof.
  unfold py_ne. rewrite bool_decide_eq_false.
  split; [apply dec_stable | intros -> H; by apply H].
Qed.

Lemma set_unchanged v self s :
  SmartThingsMetric.value self = v →
  SmartThingsMetric.set E v self s
  = (Val tt, self, emit (Log DEBUG (MsgSet (SmartThingsMetric.name self) v)) s).
Proof.
  intros Hv. unfold SmartThingsMetric.set.
  by rewrite (proj2 (py_ne_false _ _) Hv).
Qed.

Lemma labels_insert label x (g : gmap string Z) :
  <[label := x]> (Gauge.labels label g) = <[label := x]> g.
Proof.
  unfold Gauge.labels. destruct (g !! label); [done|]. apply insert_insert_eq.
Qed.

Lemma labels_present label x (g : gmap string Z) :
  g !! label = Some x → Gauge.labels label g = g.
Proof. unfold Gauge.labels. by intros ->. Qed.

Lemma set_rejected v self s e :
  SmartThingsMetric.value self ≠ v →
  Gauge.float E v = Raise e →
  SmartThingsMetric.set E v self s
  = (Raise e,
     SmartThingsMetric.with_metric
       (Gauge.labels (SmartThingsMetric.device_name self)
                     (SmartThingsMetric.metric self)) self,
     emit (Log DEBUG (MsgSet (SmartThingsMetric.name self) v)) s).
Proof.
  intros Hv He. unfold SmartThingsMetric.set, Gauge.labels_set.
  by rewrite (proj2 (py_ne_true _ _) Hv), He.
Qed.

Lemma set_changed v self s x :
  SmartThingsMetric.value self ≠ v →
  Gauge.float E v = Val x →
  SmartThingsMetric.set E v self s
  = (Val tt,
     {| SmartThingsMetric.payload_key := SmartThingsMetric.payload_key self;
        SmartThingsMetric.device_name := SmartThingsMetric.device_name self;
        SmartThingsMetric.name := SmartThingsMetric.name self;
        SmartThingsMetric.metric :=
          <[SmartThingsMetric.device_name self := x]>
            (SmartThingsMetric.metric self);
        SmartThingsMetric.value := v;
        SmartThingsMetric.last_update_time := Some (time_time E (ticks s)) |},
     {| ticks := S (ticks s);
        trace := trace s
                 ++ [Log DEBUG (MsgSet (SmartThingsMetric.name self) v);
                     GaugeSet (SmartThingsMetric.name self)
                              (SmartThingsMetric.device_name self) x] |}).
Proof.
  intros Hv Hx. unfold SmartThingsMetric.set, Gauge.labels_set.
  rewrite (proj2 (py_ne_true _ _) Hv), Hx. simpl.
  by rewrite <- app_assoc, labels_insert.
Qed.

(** [set] leaves the identity of the handle alone. *)
Lemma set_payload_key v self s r self' s' :
  SmartThingsMetric.set E v self s = (r, self', s') →
  SmartThingsMetric.payload_key self' = SmartThingsMetric.payload_key self
  ∧ SmartThingsMetric.device_name self' = SmartThingsMetric.device_name self
  ∧ SmartThingsMetric.name self' = SmartThingsMetric.name self.
Proof.
  unfold SmartThingsMetric.set, Gauge.labels_set.
  destruct (py_ne _ _); [destruct (Gauge.float E v)|];
    intros [= <- <- <-]; done.
Qed.

Lemma publishes_app tr1 tr2 :
  publishes (tr1 ++ tr2) = publishes tr1 ++ publishes tr2.
Proof. unfold publishes. apply omap_app. Qed.

Lemma changes_same cur v vs : cur = v → changes cur (v :: vs) = changes cur vs.
Proof.
  intros ->. simpl. by rewrite (proj2 (py_ne_false v v) eq_refl).
Qed.

Lemma floats_cons_accepted v vs x :
  Gauge.float E v = Val x → floats E (v :: vs) = x :: floats E vs.
Proof. intros Hx. unfold floats. simpl. by rewrite Hx. Qed.

(** The effect of a sequence of accepted values. *)
Lemma set_all_accepted vs : ∀ self s,
  Forall (accepted E) vs →
  ∃ self' s',
    set_all E vs self s = (Val tt, self', s')
    ∧ SmartThingsMetric.value self'
      = default (SmartThingsMetric.value self)
                (last (changes (SmartThingsMetric.value self) vs))
    ∧ publishes (trace s')
      = publishes (trace s) ++ floats E (changes (SmartThingsMetric.value self) vs)
    ∧ published self'
      = match last (floats E (changes (SmartThingsMetric.value self) vs)) with
        | Some x => Some x
        | None => published self
        end.
Proof.
  induction vs as [|v vs IH]; intros self s Hacc.
  - exists self, s. simpl. rewrite app_nil_r. done.
  - apply Forall_cons in Hacc as [[x Hx] Hacc]. simpl.
    destruct (decide (SmartThingsMetric.value self = v)) as [Heq|Hne].
    + rewrite (set_unchanged _ _ _ Heq).
      rewrite (proj2 (py_ne_false _ _) Heq).
      destruct (IH self (emit (Log DEBUG (MsgSet (SmartThingsMetric.name self) v)) s) Hacc)
        as (self' & s' & Hrun & Hval & Hpub & Hseen).
      exists self', s'. split_and!; try done.
      rewrite Hpub. simpl. rewrite publishes_app. simpl. by rewrite app_nil_r.
    + rewrite (set_changed _ _ _ _ Hne Hx).
      rewrite (proj2 (py_ne_true _ _) Hne).
      match goal with |- context [set_all E vs ?m ?t] =>
        destruct (IH m t Hacc) as (self' & s' & Hrun & Hval & Hpub & Hseen) end.
      simpl in Hval, Hpub, Hseen.
      exists self', s'. split_and!; try done.
      * rewrite Hval, last_cons. by destruct (last (changes v vs)).
      * rewrite Hpub, publishes_app, (floats_cons_accepted _ _ _ Hx).
        simpl. by rewrite <- app_assoc.
      * rewrite Hseen, (floats_cons_accepted _ _ _ Hx), last_cons.
        destruct (last (floats E (changes v vs))); [done|].
        unfold published. simpl. by rewrite lookup_insert_eq.
Qed.

(** [clear] hides the value and stamps the handle with the clock reading. *)
Lemma clear_effect self s :
  SmartThingsMetric.clear E self s
  = ({| SmartThingsMetric.payload_key := SmartThingsMetric.payload_key self;
        SmartThingsMetric.device_name := SmartThingsMetric.device_name self;
        SmartThingsMetric.name := SmartThingsMetric.name self;
        SmartThingsMetric.metric := ∅;
        SmartThingsMetric.value := SmartThingsMetric.value self;
        SmartThingsMetric.last_update_time := Some (time_time E (ticks s)) |},
     {| ticks := S (ticks s);
        trace := trace s
                 ++ [Log DEBUG (MsgClear (SmartThingsMetric.name self));
                     GaugeClear (SmartThingsMetric.name self)] |}).
Proof.
  unfold SmartThingsMetric.clear, now, emit. simpl. by rewrite <- app_assoc.
Qed.

(** C9: [set] calls the gauge before it assigns [value] and
    [last_update_time]; when the call raises (for example because the value
    is absent or not a number), [value] and [last_update_time] are exactly
    as they were before the call, the clock has not been read and nothing
    has been published; all that has happened to the handle is that its
    gauge has the child of the device label. *)
Theorem set_raise_leaves_handle v self s e self' s' :
  SmartThingsMetric.set E v self s = (Raise e, self', s') →
  SmartThingsMetric.value self' = SmartThingsMetric.value self
  ∧ SmartThingsMetric.last_update_time self'
    = SmartThingsMetric.last_update_time self
  ∧ self' = SmartThingsMetric.with_metric
              (Gauge.labels (SmartThingsMetric.device_name self)
                            (SmartThingsMetric.metric self)) self
  ∧ Gauge.float E v = Raise e
  ∧ SmartThingsMetric.value self ≠ v
  ∧ ticks s' = ticks s
  ∧ publishes (trace s') = publishes (trace s).
Proof.
  intros Hset.
  destruct (decide (SmartThingsMetric.value self = v)) as [Heq|Hne].
  { rewrite (set_unchanged _ _ _ Heq) in Hset. discriminate. }
  destruct (Gauge.float E v) as [x|e'] eqn:Hfl.
  { rewrite (set_changed _ _ _ _ Hne Hfl) in Hset. discriminate. }
  rewrite (set_rejected _ _ _ _ Hne Hfl) in Hset.
  injection Hset as <- <- <-.
  split_and!; try done.
  simpl. rewrite publishes_app. simpl. by rewrite app_nil_r.
Qed.

(** C3 (amended): [set(value)] publishes the value under the device label
    and assigns [value] and [last_update_time] exactly when the value
    differs from the current one and the gauge accepts it; a differing value
    the gauge rejects raises, and [value] and [last_update_time] stay as
    they were; an equal value publishes nothing and does not refresh
    [last_update_time].  After a sequence of
    accepted values the published number is that of the most recent value
    that differed from its predecessor, and there was one publish per such
    value. *)
Theorem set_publishes_accepted_change v self s :
  (SmartThingsMetric.value self ≠ v → ∀ x, Gauge.float E v = Val x →
   SmartThingsMetric.set E v self s
   = (Val tt,
      {| SmartThingsMetric.payload_key := SmartThingsMetric.payload_key self;
         SmartThingsMetric.device_name := SmartThingsMetric.device_name self;
         SmartThingsMetric.name := SmartThingsMetric.name self;
         SmartThingsMetric.metric :=
           <[SmartThingsMetric.device_name self := x]>
             (SmartThingsMetric.metric self);
         SmartThingsMetric.value := v;
         SmartThingsMetric.last_update_time := Some (time_time E (ticks s)) |},
      {| ticks := S (ticks s);
         trace := trace s
                  ++ [Log DEBUG (MsgSet (SmartThingsMetric.name self) v);
                      GaugeSet (SmartThingsMetric.name self)
                               (SmartThingsMetric.device_name self) x] |}))
  ∧ (SmartThingsMetric.value self ≠ v → ∀ e, Gauge.float E v = Raise e →
     SmartThingsMetric.set E v self s
     = (Raise e,
        SmartThingsMetric.with_metric
          (Gauge.labels (SmartThingsMetric.device_name self)
                        (SmartThingsMetric.metric self)) self,
        emit (Log DEBUG (MsgSet (SmartThingsMetric.name self) v)) s))
  ∧ (SmartThingsMetric.value self = v →
     SmartThingsMetric.set E v self s
     = (Val tt, self,
        emit (Log DEBUG (MsgSet (SmartThingsMetric.name self) v)) s))
  ∧ (∀ vs, Forall (accepted E) vs →
     ∃ self' s',
       set_all E vs self s = (Val tt, self', s')
       ∧ SmartThingsMetric.value self'
         = default (SmartThingsMetric.value self)
                   (last (changes (SmartThingsMetric.value self) vs))
       ∧ publishes (trace s')
         = publishes (trace s)
           ++ floats E (changes (SmartThingsMetric.value self) vs)
       ∧ published self'
         = match last (floats E (changes (SmartThingsMetric.value self) vs)) with
           | Some x => Some x
           | None => published self
           end).
Proof.
  split_and!.
  - intros Hne x Hx. by apply set_changed.
  - intros Hne e He. by apply set_rejected.
  - apply set_unchanged.
  - intros vs Hacc. by apply set_all_accepted.
Qed.

End Handle.

Lemma set_raise_leaves_handle_witness :
  SmartThingsMetric.set plain VNone
    (handle "switch" {["lamp" := 1]} (VInt 1) (Some 0)) sys0
  = (Raise TypeError, handle "switch" {["lamp" := 1]} (VInt 1) (Some 0),
     {| ticks := 0; trace := [Log DEBUG (MsgSet "smartthings_switch" VNone)] |})
  ∧ Gauge.float plain VNone = Raise TypeError.
Proof.
  assert (H : SmartThingsMetric.set plain VNone
                (handle "switch" {["lamp" := 1]} (VInt 1) (Some 0)) sys0
              = (Raise TypeError,
                 handle "switch" {["lamp" := 1]} (VInt 1) (Some 0),
                 {| ticks := 0;
                    trace := [Log DEBUG (MsgSet "smartthings_switch" VNone)] |}))
    by reflexivity.
  split; [exact H|].
  exact (proj1 (proj2 (proj2 (proj2 (set_raise_leaves_handle plain _ _ _ _ _ _ H))))).
Defined.

Lemma set_publishes_accepted_change_witness :
  SmartThingsMetric.set plain (VInt 1) (handle "switch" ∅ VNone None) sys0
  = (Val tt, handle "switch" {["lamp" := 1]} (VInt 1) (Some 0),
     {| ticks := 1;
        trace := [Log DEBUG (MsgSet "smartthings_switch" (VInt 1));
                  GaugeSet "smartthings_switch" "lamp" 1] |})
  ∧ SmartThingsMetric.set plain (VStr "on") (handle "switch" ∅ VNone None) sys0
    = (Raise ValueError, handle "switch" {["lamp" := 0]} VNone None,
       {| ticks := 0;
          trace := [Log DEBUG (MsgSet "smartthings_switch" (VStr "on"))] |})
  ∧ SmartThingsMetric.set plain (VInt 1)
      (handle "switch" {["lamp" := 1]} (VInt 1) (Some 0)) sys0
    = (Val tt, handle "switch" {["lamp" := 1]} (VInt 1) (Some 0),
       {| ticks := 0;
          trace := [Log DEBUG (MsgSet "smartthings_switch" (VInt 1))] |})
  ∧ ∃ self' s',
      set_all plain [VInt 1; VInt 1; VInt 2; VInt 2]
        (handle "switch" ∅ VNone None) sys0 = (Val tt, self', s')
      ∧ SmartThingsMetric.value self' = VInt 2
      ∧ publishes (trace s') = [1; 2]
      ∧ published self' = Some 2.
Proof.
  split_and!.
  - apply (proj1 (set_publishes_accepted_change plain (VInt 1)
                    (handle "switch" ∅ VNone None) sys0));
      [discriminate | reflexivity].
  - exact (proj1 (proj2 (set_publishes_accepted_change plain (VStr "on")
                           (handle "switch" ∅ VNone None) sys0))
             ltac:(discriminate) ValueError eq_refl).
  - apply (proj1 (proj2 (proj2 (set_publishes_accepted_change plain (VInt 1)
                     (handle "switch" {["lamp" := 1]} (VInt 1) (Some 0)) sys0)))).
    reflexivity.
  - apply (proj2 (proj2 (proj2 (set_publishes_accepted_change plain (VInt 1)
                     (handle "switch" ∅ VNone None) sys0)))
             [VInt 1; VInt 1; VInt 2; VInt 2]).
    repeat constructor; eexists; reflexivity.
Defined.

(** C3, as stated, fails when the value differs from the current one but the
    gauge does not accept it: setting the absent value on a handle that
    holds 1 neither publishes nor assigns, and after the calls [1; None] the
    published number is still 1 although the most recent value that differed
    from its predecessor is [None]. *)
Lemma set_differing_value_without_publish :
  SmartThingsMetric.value (handle "switch" {["lamp" := 1]} (VInt 1) (Some 0))
  ≠ VNone
  ∧ SmartThingsMetric.set plain VNone
      (handle "switch" {["lamp" := 1]} (VInt 1) (Some 0)) sys0
    = (Raise TypeError, handle "switch" {["lamp" := 1]} (VInt 1) (Some 0),
       {| ticks := 0; trace := [Log DEBUG (MsgSet "smartthings_switch" VNone)] |})
  ∧ last (changes VNone [VInt 1; VNone]) = Some VNone
  ∧ ∃ self' s',
      set_all plain [VInt 1; VNone] (handle "switch" ∅ VNone None) sys0
      = (Raise TypeError, self', s')
      ∧ SmartThingsMetric.value self' = VInt 1
      ∧ published self' = Some 1.
Proof.
  split_and!; [discriminate | reflexivity | reflexivity |].
  do 2 eexists. split_and!; reflexivity.
Defined.
(** ** The registry: lookup-or-create *)

Section Registry.

Variable E : Platform.

Implicit Types (l : list (option SmartThingsMetric.t)) (w : Worker.t).

Lemma keys_lookup l i :
  keys l !! i
  = (λ x : option SmartThingsMetric.t, SmartThingsMetric.payload_key <$> x)
      <$> (l !! i).
Proof. unfold keys. apply list_lookup_fmap. Qed.

Lemma find_metric_Some k l i m :
  Worker.find_metric k l = Val (Some (i, m)) →
  l !! i = Some (Some m) ∧ SmartThingsMetric.payload_key m = k.
Proof.
  revert i. induction l as [|[m0|] l IH]; intros i Hf; simpl in Hf; try done.
  destruct (decide (SmartThingsMetric.payload_key m0 = k)) as [Hk|Hk].
  - by injection Hf as <- <-.
  - destruct (Worker.find_metric k l) as [[[i' m']|]|] eqn:Hrec; try done.
    injection Hf as <- <-. by apply IH.
Qed.

Lemma find_metric_None k l :
  Worker.find_metric k l = Val None →
  Forall (λ x, ∃ m, x = Some m ∧ SmartThingsMetric.payload_key m ≠ k) l.
Proof.
  induction l as [|[m0|] l IH]; intros Hf; simpl in Hf; try done.
  destruct (decide (SmartThingsMetric.payload_key m0 = k)) as [Hk|Hk]; [done|].
  destruct (Worker.find_metric k l) as [[[i' m']|]|] eqn:Hrec; try done.
  constructor; [by exists m0 | by apply IH].
Qed.

Lemma find_metric_app_new k l m :
  Worker.find_metric k l = Val None →
  SmartThingsMetric.payload_key m = k →
  Worker.find_metric k (l ++ [Some m]) = Val (Some (length l, m)).
Proof.
  intros Hf Hk. induction l as [|[m0|] l IH]; simpl in *; try done.
  - by rewrite decide_True.
  - destruct (decide (SmartThingsMetric.payload_key m0 = k)); [done|].
    destruct (Worker.find_metric k l) as [[[i' m']|]|] eqn:Hrec; try done.
    by rewrite IH.
Qed.

Lemma find_metric_app_None k l :
  Worker.find_metric k l = Val None →
  Worker.find_metric k (l ++ [None]) = Raise AttributeError.
Proof.
  intros Hf. induction l as [|[m0|] l IH]; simpl in *; try done.
  destruct (decide (SmartThingsMetric.payload_key m0 = k)); [done|].
  destruct (Worker.find_metric k l) as [[[i' m']|]|] eqn:Hrec; try done.
  by rewrite IH.
Qed.


(** What [get_metric_by_payload_key] does, case by case. *)
Lemma get_metric_cases k w s :
  match Worker.find_metric k (Worker.metrics_collector w) with
  | Raise e => Worker.get_metric_by_payload_key E k w s = (Raise e, w, s)
  | Val (Some (i, m)) =>
      Worker.get_metric_by_payload_key E k w s
      = (Val (Some i), w,
         emit (Log DEBUG (MsgFound (SmartThingsMetric.name m) k)) s)
  | Val None =>
      match SmartThingsMetric.init E k (Worker.device_name w) with
      | Val m =>
          Worker.get_metric_by_payload_key E k w s
          = (Val (Some (length (Worker.metrics_collector w))),
             Worker.with_metrics_collector
               (Worker.metrics_collector w ++ [Some m]) w,
             emit (Log INFO (MsgCreated (SmartThingsMetric.payload_key m)
                                        (SmartThingsMetric.name m)))
               (emit (Log DEBUG (MsgCannotFind k)) s))
      | Raise SmartThingsMetricException =>
          Worker.get_metric_by_payload_key E k w s
          = (Val None,
             Worker.with_metrics_collector
               (Worker.metrics_collector w ++ [None]) w,
             emit (Log ERROR (MsgException SmartThingsMetricException))
               (emit (Log DEBUG (MsgCannotFind k)) s))
      | Raise e =>
          Worker.get_metric_by_payload_key E k w s
          = (Raise e, w, emit (Log DEBUG (MsgCannotFind k)) s)
      end
  end.
Proof.
  unfold Worker.get_metric_by_payload_key, Worker.create_new_metric,
    Worker.bind, Worker.log, Worker.ret, Worker.raise.
  destruct (Worker.find_metric k (Worker.metrics_collector w))
    as [[[i m]|]|e]; try done.
  destruct (SmartThingsMetric.init E k (Worker.device_name w)) as [m|[]];
    done.
Qed.


Lemma init_payload_key k d m :
  SmartThingsMetric.init E k d = Val m →
  SmartThingsMetric.payload_key m = k
  ∧ SmartThingsMetric.value m = VNone
  ∧ SmartThingsMetric.last_update_time m = None.
Proof.
  unfold SmartThingsMetric.init. destruct (Gauge_init E _); [done|].
  by intros [= <-].
Qed.

(** A handle that is returned is stored at the returned position, carries
    the key that was asked for, and the list has only grown at its end. *)
Lemma get_metric_returns k w s i w' s' :
  Worker.get_metric_by_payload_key E k w s = (Val (Some i), w', s') →
  ∃ m, Worker.metrics_collector w' !! i = Some (Some m)
       ∧ SmartThingsMetric.payload_key m = k
       ∧ Worker.find_metric k (Worker.metrics_collector w') = Val (Some (i, m)).
Proof.
  intros Hget. pose proof (get_metric_cases k w s) as Hc.
  destruct (Worker.find_metric k (Worker.metrics_collector w))
    as [[[i0 m0]|]|e] eqn:Hf.
  - rewrite Hc in Hget. injection Hget as <- <- <-.
    exists m0. by destruct (find_metric_Some _ _ _ _ Hf).
  - destruct (SmartThingsMetric.init E k (Worker.device_name w))
      as [m|e] eqn:Hi.
    + rewrite Hc in Hget. injection Hget as <- <- <-. simpl.
      destruct (init_payload_key _ _ _ Hi) as (Hk & _ & _).
      exists m. split_and!; [|done|by apply find_metric_app_new].
      by rewrite lookup_app_r, Nat.sub_diag.
    + destruct e; rewrite Hc in Hget; done.
  - rewrite Hc in Hget. done.
Qed.

(** Whatever the outcome, [get_metric_by_payload_key] changes no entry that
    is already in the list: it only appends. *)
Lemma get_metric_extends k w s r w' s' :
  Worker.get_metric_by_payload_key E k w s = (r, w', s') →
  (∃ tl, Worker.metrics_collector w' = Worker.metrics_collector w ++ tl)
  ∧ w' = Worker.with_metrics_collector (Worker.metrics_collector w') w.
Proof.
  intros Hget. pose proof (get_metric_cases k w s) as Hc.
  assert (Hw : w = Worker.with_metrics_collector (Worker.metrics_collector w) w)
    by by destruct w.
  destruct (Worker.find_metric k (Worker.metrics_collector w))
    as [[[i0 m0]|]|e] eqn:Hf.
  - rewrite Hc in Hget. injection Hget as <- <- <-.
    split; [exists []; by rewrite app_nil_r | done].
  - destruct (SmartThingsMetric.init E k (Worker.device_name w))
      as [m|e] eqn:Hi.
    + rewrite Hc in Hget. injection Hget as <- <- <-. simpl.
      split; [by eexists | done].
    + destruct e; rewrite Hc in Hget; injection Hget as <- <- <-; simpl;
        (split; [first [by eexists | exists []; by rewrite app_nil_r] | done]).
  - rewrite Hc in Hget. injection Hget as <- <- <-.
    split; [exists []; by rewrite app_nil_r | done].
Qed.

Lemma one_handle_per_key_keys l l' :
  keys l = keys l' → one_handle_per_key l → one_handle_per_key l'.
Proof.
  intros Hk Hinv i j m1 m2 Hi Hj Heq.
  assert (Hl : ∀ n m, l' !! n = Some (Some m) →
               ∃ m0, l !! n = Some (Some m0)
                     ∧ SmartThingsMetric.payload_key m0
                       = SmartThingsMetric.payload_key m).
  { intros n m Hn.
    assert (Hkn : keys l !! n = Some (Some (SmartThingsMetric.payload_key m)))
      by by rewrite Hk, keys_lookup, Hn.
    rewrite keys_lookup in Hkn.
    destruct (l !! n) as [[m0|]|]; simplify_eq/=. by exists m0. }
  destruct (Hl _ _ Hi) as (n1 & Hn1 & Hk1).
  destruct (Hl _ _ Hj) as (n2 & Hn2 & Hk2).
  apply (Hinv i j n1 n2); congruence.
Qed.

Lemma one_handle_per_key_snoc k l x :
  Worker.find_metric k l = Val None →
  (∀ m, x = Some m → SmartThingsMetric.payload_key m = k) →
  one_handle_per_key l → one_handle_per_key (l ++ [x]).
Proof.
  intros Hf Hx Hinv i j m1 m2 Hi Hj Heq.
  pose proof (find_metric_None _ _ Hf) as Hall.
  rewrite Forall_lookup in Hall.
  assert (Hnew : ∀ n m, (l ++ [x]) !! n = Some (Some m) →
            (l !! n = Some (Some m) ∧ SmartThingsMetric.payload_key m ≠ k)
            ∨ (n = length l ∧ SmartThingsMetric.payload_key m = k)).
  { intros n m Hn. apply lookup_app_Some in Hn as [Hn|[Hlen Hn]].
    - left. split; [done|].
      destruct (Hall _ _ Hn) as (m' & [= <-] & Hne). done.
    - right. apply list_lookup_singleton_Some in Hn as [Hz ->].
      split; [lia | by apply Hx]. }
  destruct (Hnew _ _ Hi) as [[Hi' Hk1]|[-> Hk1]],
           (Hnew _ _ Hj) as [[Hj' Hk2]|[-> Hk2]]; try congruence.
  by apply (Hinv i j m1 m2).
Qed.

End Registry.
(** ** Updating the handles of the configured keys *)

Section Update.

Variable E : Platform.

Implicit Types (l : list (option SmartThingsMetric.t)) (w : Worker.t).

Lemma with_metrics_collector_id w :
  Worker.with_metrics_collector (Worker.metrics_collector w) w = w.
Proof. by destruct w. Qed.

Lemma set_at_inv i v w s r w' s' :
  Worker.set_at E i v w s = (r, w', s') →
  (∃ m m', Worker.metrics_collector w !! i = Some (Some m)
           ∧ SmartThingsMetric.set E v m s = (r, m', s')
           ∧ w' = Worker.with_metrics_collector
                    (<[i := Some m']> (Worker.metrics_collector w)) w)
  ∨ (r = Raise AttributeError ∧ w' = w ∧ s' = s).
Proof.
  unfold Worker.set_at, Worker.raise.
  destruct (Worker.metrics_collector w !! i) as [[m|]|] eqn:Hi.
  - destruct (SmartThingsMetric.set E v m s) as [[r0 m'] s0] eqn:Hset.
    intros [= <- <- <-]. left. by exists m, m'.
  - intros [= <- <- <-]. by right.
  - intros [= <- <- <-]. by right.
Qed.

Lemma keys_insert_same l i m m' :
  l !! i = Some (Some m) →
  SmartThingsMetric.payload_key m' = SmartThingsMetric.payload_key m →
  keys (<[i := Some m']> l) = keys l.
Proof.
  intros Hi Hk. unfold keys. rewrite list_fmap_insert. simpl. rewrite Hk.
  apply list_insert_id. by rewrite list_lookup_fmap, Hi.
Qed.

Lemma set_at_keys i v w s r w' s' :
  Worker.set_at E i v w s = (r, w', s') →
  keys (Worker.metrics_collector w') = keys (Worker.metrics_collector w)
  ∧ w' = Worker.with_metrics_collector (Worker.metrics_collector w') w.
Proof.
  intros Hs. apply set_at_inv in Hs as [(m & m' & Hi & Hset & ->)|(_ & -> & _)].
  - simpl. split; [|done].
    apply (keys_insert_same _ _ m); [done|].
    by destruct (set_payload_key E _ _ _ _ _ _ Hset).
  - by rewrite with_metrics_collector_id.
Qed.

Lemma set_at_frame i v w s r w' s' j :
  Worker.set_at E i v w s = (r, w', s') → j ≠ i →
  Worker.metrics_collector w' !! j = Worker.metrics_collector w !! j.
Proof.
  intros Hs Hne. apply set_at_inv in Hs as [(m & m' & Hi & Hset & ->)|(_ & -> & _)].
  - simpl. by rewrite list_lookup_insert_ne.
  - done.
Qed.

Lemma update_metric_inv values k w s r w' s' :
  Worker.update_metric E values k w s = (r, w', s') →
  ∃ rg w1 s1,
    Worker.get_metric_by_payload_key E k w s = (rg, w1, s1)
    ∧ match rg with
      | Val (Some i) =>
          Worker.set_at E i (Worker.values_get values k) w1 s1 = (r, w', s')
      | Val None => r = Val tt ∧ w' = w1 ∧ s' = s1
      | Raise e => r = Raise e ∧ w' = w1 ∧ s' = s1
      end.
Proof.
  unfold Worker.update_metric, Worker.bind, Worker.ret.
  destruct (Worker.get_metric_by_payload_key E k w s) as [[rg w1] s1].
  intros H. exists rg, w1, s1. split; [done|].
  destruct rg as [[i|]|e]; [done| |]; by injection H as <- <- <-.
Qed.

(** Handling one key touches no entry other than the handle of that key. *)
Lemma update_metric_frame values k w s r w' s' j x :
  Worker.update_metric E values k w s = (r, w', s') →
  Worker.metrics_collector w !! j = Some x →
  (∀ m, x = Some m → SmartThingsMetric.payload_key m ≠ k) →
  Worker.metrics_collector w' !! j = Some x.
Proof.
  intros Hu Hj Hx.
  apply update_metric_inv in Hu as (rg & w1 & s1 & Hget & Hrest).
  destruct (get_metric_extends E _ _ _ _ _ _ Hget) as [[tl Htl] _].
  assert (Hj1 : Worker.metrics_collector w1 !! j = Some x)
    by (rewrite Htl; by apply lookup_app_l_Some).
  destruct rg as [[i|]|e].
  - destruct (get_metric_returns E _ _ _ _ _ _ Hget) as (m & Hi & Hk & _).
    rewrite (set_at_frame _ _ _ _ _ _ _ j Hrest); [done|].
    intros ->. rewrite Hi in Hj1. injection Hj1 as <-. by apply (Hx m).
  - by destruct Hrest as (_ & -> & _).
  - by destruct Hrest as (_ & -> & _).
Qed.

Lemma update_metric_keys values k w s r w' s' :
  Worker.update_metric E values k w s = (r, w', s') →
  keys (Worker.metrics_collector w) `prefix_of` keys (Worker.metrics_collector w')
  ∧ w' = Worker.with_metrics_collector (Worker.metrics_collector w') w.
Proof.
  intros Hu.
  apply update_metric_inv in Hu as (rg & w1 & s1 & Hget & Hrest).
  destruct (get_metric_extends E _ _ _ _ _ _ Hget) as [[tl Htl] Hw1].
  assert (Hpre : keys (Worker.metrics_collector w)
                 `prefix_of` keys (Worker.metrics_collector w1)).
  { rewrite Htl. unfold keys. rewrite fmap_app. by eexists. }
  destruct rg as [[i|]|e].
  - destruct (set_at_keys _ _ _ _ _ _ _ Hrest) as [Hk Hw'].
    split; [by rewrite Hk|]. rewrite Hw', Hw1. done.
  - by destruct Hrest as (_ & -> & _).
  - by destruct Hrest as (_ & -> & _).
Qed.

Lemma update_metric_one_handle_per_key values k w s r w' s' :
  Worker.update_metric E values k w s = (r, w', s') →
  one_handle_per_key (Worker.metrics_collector w) →
  one_handle_per_key (Worker.metrics_collector w').
Proof.
  intros Hu Hinv.
  apply update_metric_inv in Hu as (rg & w1 & s1 & Hget & Hrest).
  assert (Hinv1 : one_handle_per_key (Worker.metrics_collector w1)).
  { pose proof (get_metric_cases E k w s) as Hc.
    destruct (Worker.find_metric k (Worker.metrics_collector w))
      as [[[i0 m0]|]|e] eqn:Hf.
    - rewrite Hc in Hget. by injection Hget as <- <- <-.
    - destruct (SmartThingsMetric.init E k (Worker.device_name w))
        as [m|e] eqn:Hi.
      + rewrite Hc in Hget. injection Hget as <- <- <-. simpl.
        apply (one_handle_per_key_snoc k); [done| |done].
        intros m' [= <-]. by destruct (init_payload_key E _ _ _ Hi).
      + destruct e; rewrite Hc in Hget; injection Hget as <- <- <-;
          simpl; try done.
        by apply (one_handle_per_key_snoc k).
    - rewrite Hc in Hget. by injection Hget as <- <- <-. }
  destruct rg as [[i|]|e].
  - destruct (set_at_keys _ _ _ _ _ _ _ Hrest) as [Hk _].
    by apply (one_handle_per_key_keys (Worker.metrics_collector w1)).
  - by destruct Hrest as (_ & -> & _).
  - by destruct Hrest as (_ & -> & _).
Qed.

Lemma update_metrics_cons values k ks w s :
  Worker.update_metrics E values (k :: ks) w s
  = match Worker.update_metric E values k w s with
    | (Val _, w', s') => Worker.update_metrics E values ks w' s'
    | (Raise e, w', s') => (Raise e, w', s')
    end.
Proof. done. Qed.



Lemma update_metrics_keys values ks : ∀ w s r w' s',
  Worker.update_metrics E values ks w s = (r, w', s') →
  keys (Worker.metrics_collector w) `prefix_of` keys (Worker.metrics_collector w')
  ∧ w' = Worker.with_metrics_collector (Worker.metrics_collector w') w.
Proof.
  induction ks as [|k ks IH]; intros w s r w' s' Hu.
  - injection Hu as <- <- <-. by rewrite with_metrics_collector_id.
  - rewrite update_metrics_cons in Hu.
    destruct (Worker.update_metric E values k w s) as [[r1 w1] s1] eqn:H1.
    destruct (update_metric_keys _ _ _ _ _ _ _ H1) as [Hp1 Hw1].
    destruct r1 as [[]|e].
    + destruct (IH _ _ _ _ _ Hu) as [Hp Hw'].
      split; [by etrans|]. rewrite Hw', Hw1. done.
    + by injection Hu as <- <- <-.
Qed.

Lemma update_metrics_one_handle_per_key values ks : ∀ w s r w' s',
  Worker.update_metrics E values ks w s = (r, w', s') →
  one_handle_per_key (Worker.metrics_collector w) →
  one_handle_per_key (Worker.metrics_collector w').
Proof.
  induction ks as [|k ks IH]; intros w s r w' s' Hu Hinv.
  - by injection Hu as <- <- <-.
  - rewrite update_metrics_cons in Hu.
    destruct (Worker.update_metric E values k w s) as [[r1 w1] s1] eqn:H1.
    pose proof (update_metric_one_handle_per_key _ _ _ _ _ _ _ H1 Hinv).
    destruct r1 as [[]|e]; [by eapply IH | by injection Hu as <- <- <-].
Qed.

(** The protected region: whatever is raised inside is caught and logged. *)
Lemma process_status_inv r w s :
  match r with
  | Worker.RefreshFailed e =>
      Worker.process_status E r w s
      = (Val tt, w, emit (Log ERROR (MsgErrorProcessing e)) s)
  | Worker.Refreshed values =>
      match Worker.update_metrics E values (Worker.device_metrics w) w s with
      | (Val _, w', s') => Worker.process_status E r w s = (Val tt, w', s')
      | (Raise e, w', s') =>
          Worker.process_status E r w s
          = (Val tt, w', emit (Log ERROR (MsgErrorProcessing e)) s')
      end
  end.
Proof.
  unfold Worker.process_status, Worker.try_except, Worker.raise, Worker.log.
  destruct r as [values|e]; [|done].
  by destruct (Worker.update_metrics E values (Worker.device_metrics w) w s)
    as [[[[]|e] w'] s'].
Qed.

Lemma process_status_total r w s :
  ∃ w' s', Worker.process_status E r w s = (Val tt, w', s').
Proof.
  pose proof (process_status_inv r w s) as H.
  destruct r as [values|e]; [|by eauto].
  destruct (Worker.update_metrics E values (Worker.device_metrics w) w s)
    as [[[[]|e] w'] s']; eauto.
Qed.

Lemma process_status_keys r w s r' w' s' :
  Worker.process_status E r w s = (r', w', s') →
  keys (Worker.metrics_collector w) `prefix_of` keys (Worker.metrics_collector w')
  ∧ w' = Worker.with_metrics_collector (Worker.metrics_collector w') w
  ∧ (one_handle_per_key (Worker.metrics_collector w) →
     one_handle_per_key (Worker.metrics_collector w')).
Proof.
  intros Hp. pose proof (process_status_inv r w s) as H.
  destruct r as [values|e].
  - destruct (Worker.update_metrics E values (Worker.device_metrics w) w s)
      as [[r1 w1] s1] eqn:Hu.
    destruct (update_metrics_keys _ _ _ _ _ _ _ Hu) as [Hk Hw].
    pose proof (update_metrics_one_handle_per_key _ _ _ _ _ _ _ Hu) as Hi.
    destruct r1 as [[]|e]; rewrite H in Hp; by injection Hp as <- <- <-.
  - rewrite H in Hp. injection Hp as <- <- <-.
    by rewrite with_metrics_collector_id.
Qed.

End Update.
(** ** The expiration sweep *)

Section Sweep.

Variable E : Platform.

Implicit Types (l : list (option SmartThingsMetric.t)) (w : Worker.t).

Lemma sweep_one_kept t thr m s :
  stale t thr m = false →
  ∃ r, Worker.sweep_one E t thr (Some m) s = (r, Some m, s).
Proof.
  unfold Worker.sweep_one, stale.
  destruct (SmartThingsMetric.last_update_time m); [intros ->|]; eauto.
Qed.

Lemma sweep_one_cleared t thr m s :
  stale t thr m = true →
  Worker.sweep_one E t thr (Some m) s
  = (Val tt,
     Some {| SmartThingsMetric.payload_key := SmartThingsMetric.payload_key m;
             SmartThingsMetric.device_name := SmartThingsMetric.device_name m;
             SmartThingsMetric.name := SmartThingsMetric.name m;
             SmartThingsMetric.metric := ∅;
             SmartThingsMetric.value := SmartThingsMetric.value m;
             SmartThingsMetric.last_update_time := Some (time_time E (ticks s)) |},
     {| ticks := S (ticks s);
        trace := trace s
                 ++ [Log DEBUG (MsgClear (SmartThingsMetric.name m));
                     GaugeClear (SmartThingsMetric.name m);
                     Log INFO (MsgClearedExpired (SmartThingsMetric.name m))] |}).
Proof.
  unfold Worker.sweep_one, stale.
  destruct (SmartThingsMetric.last_update_time m); [intros ->|done].
  rewrite clear_effect. unfold emit. simpl. by rewrite <- app_assoc.
Qed.

Lemma sweep_one_ticks t thr entry s r entry' s' :
  Worker.sweep_one E t thr entry s = (r, entry', s') →
  (ticks s ≤ ticks s')%nat
  ∧ (SmartThingsMetric.payload_key <$> entry')
    = (SmartThingsMetric.payload_key <$> entry).
Proof.
  destruct entry as [m|]; [|by intros [= <- <- <-]].
  destruct (stale t thr m) eqn:Hst.
  - rewrite (sweep_one_cleared _ _ _ _ Hst). intros [= <- <- <-]. simpl.
    split; [lia | done].
  - destruct (sweep_one_kept t thr m s Hst) as [r0 ->].
    by intros [= <- <- <-].
Qed.

Lemma sweep_cons t thr entry l s :
  Worker.sweep E t thr (entry :: l) s
  = match Worker.sweep_one E t thr entry s with
    | (Val _, entry', s') =>
        let '(r, l'', s'') := Worker.sweep E t thr l s' in
        (r, entry' :: l'', s'')
    | (Raise e, entry', s') => (Raise e, entry' :: l, s')
    end.
Proof. done. Qed.

Lemma sweep_keys t thr l : ∀ s r l' s',
  Worker.sweep E t thr l s = (r, l', s') →
  keys l' = keys l ∧ (ticks s ≤ ticks s')%nat.
Proof.
  induction l as [|entry l IH]; intros s r l' s' H.
  - by injection H as <- <- <-.
  - rewrite sweep_cons in H.
    destruct (Worker.sweep_one E t thr entry s) as [[r1 entry1] s1] eqn:H1.
    destruct (sweep_one_ticks _ _ _ _ _ _ _ H1) as [Ht1 Hk1].
    destruct r1 as [[]|e].
    + destruct (Worker.sweep E t thr l s1) as [[r2 l2] s2] eqn:H2.
      destruct (IH _ _ _ _ H2) as [Hk2 Ht2].
      injection H as <- <- <-. unfold keys in *. rewrite !fmap_cons.
      split; [congruence | lia].
    + injection H as <- <- <-. unfold keys. rewrite !fmap_cons.
      split; [congruence | lia].
Qed.

(** An entry the test does not select is not touched, whatever happens to
    the other entries. *)
Lemma sweep_entry_kept t thr l : ∀ s r l' s' i m,
  Worker.sweep E t thr l s = (r, l', s') →
  l !! i = Some (Some m) → stale t thr m = false →
  l' !! i = Some (Some m).
Proof.
  induction l as [|entry l IH]; intros s r l' s' i m H Hi Hst; [done|].
  rewrite sweep_cons in H.
  destruct (Worker.sweep_one E t thr entry s) as [[r1 entry1] s1] eqn:H1.
  destruct i as [|i]; simpl in Hi.
  - injection Hi as ->.
    destruct (sweep_one_kept t thr m s Hst) as [r0 Hc].
    rewrite Hc in H1. injection H1 as <- <- <-.
    destruct r0 as [[]|e]; [|by injection H as <- <- <-].
    destruct (Worker.sweep E t thr l s) as [[r2 l2] s2].
    by injection H as <- <- <-.
  - destruct r1 as [[]|e]; [|by injection H as <- <- <-].
    destruct (Worker.sweep E t thr l s1) as [[r2 l2] s2] eqn:H2.
    injection H as <- <- <-. simpl. by eapply IH.
Qed.

(** An entry the test selects is cleared once, at a clock reading taken
    during the sweep. *)
Lemma sweep_entry_cleared t thr l : ∀ s l' s' i m,
  Worker.sweep E t thr l s = (Val tt, l', s') →
  l !! i = Some (Some m) → stale t thr m = true →
  ∃ n, (ticks s ≤ n < ticks s')%nat
       ∧ l' !! i
         = Some (Some {| SmartThingsMetric.payload_key := SmartThingsMetric.payload_key m;
                         SmartThingsMetric.device_name := SmartThingsMetric.device_name m;
                         SmartThingsMetric.name := SmartThingsMetric.name m;
                         SmartThingsMetric.metric := ∅;
                         SmartThingsMetric.value := SmartThingsMetric.value m;
                         SmartThingsMetric.last_update_time :=
                           Some (time_time E n) |}).
Proof.
  induction l as [|entry l IH]; intros s l' s' i m H Hi Hst; [done|].
  rewrite sweep_cons in H.
  destruct (Worker.sweep_one E t thr entry s) as [[r1 entry1] s1] eqn:H1.
  destruct r1 as [[]|e]; [|done].
  destruct (Worker.sweep E t thr l s1) as [[r2 l2] s2] eqn:H2.
  injection H as -> <- <-.
  destruct (sweep_keys _ _ _ _ _ _ _ H2) as [_ Ht2].
  destruct (sweep_one_ticks _ _ _ _ _ _ _ H1) as [Ht1 _].
  destruct i as [|i]; simpl in Hi.
  - injection Hi as ->.
    rewrite (sweep_one_cleared _ _ _ _ Hst) in H1.
    injection H1 as <- <-. simpl in Ht2.
    exists (ticks s). split; [lia | done].
  - destruct (IH _ _ _ _ _ H2 Hi Hst) as (n & Hn & Hl).
    exists n. split; [lia | done].
Qed.

(** A handle that was never updated makes the sweep raise. *)
Lemma sweep_never_updated t thr l : ∀ s i m,
  l !! i = Some (Some m) →
  SmartThingsMetric.last_update_time m = None →
  ∃ e l' s', Worker.sweep E t thr l s = (Raise e, l', s').
Proof.
  induction l as [|entry l IH]; intros s i m Hi Hnone; [done|].
  rewrite sweep_cons.
  destruct (Worker.sweep_one E t thr entry s) as [[r1 entry1] s1] eqn:H1.
  destruct r1 as [[]|e]; [|by eauto].
  destruct i as [|i]; simpl in Hi.
  - injection Hi as ->. unfold Worker.sweep_one in H1.
    rewrite Hnone in H1. done.
  - destruct (IH s1 i m Hi Hnone) as (e & l' & s' & ->). by eauto.
Qed.

Lemma clear_expired_metrics_inv w s :
  Worker.clear_expired_metrics E w s
  = let '(r, l, s') :=
      Worker.sweep E (time_time E (ticks s)) (Worker.expiration_threshold w)
        (Worker.metrics_collector w)
        {| ticks := S (ticks s); trace := trace s |} in
    (r, Worker.with_metrics_collector l w, s').
Proof. done. Qed.

Lemma clear_expired_metrics_keys w s r w' s' :
  Worker.clear_expired_metrics E w s = (r, w', s') →
  keys (Worker.metrics_collector w') = keys (Worker.metrics_collector w)
  ∧ w' = Worker.with_metrics_collector (Worker.metrics_collector w') w.
Proof.
  rewrite clear_expired_metrics_inv.
  destruct (Worker.sweep _ _ _ _ _) as [[r1 l1] s1] eqn:Hs.
  intros [= <- <- <-]. simpl. by destruct (sweep_keys _ _ _ _ _ _ _ Hs).
Qed.

Lemma cycle_inv r w s :
  ∃ w1 s1, Worker.process_status E r w s = (Val tt, w1, s1)
           ∧ Worker.cycle E r w s = Worker.clear_expired_metrics E w1 s1.
Proof.
  destruct (process_status_total E r w s) as (w1 & s1 & Hp).
  exists w1, s1. split; [done|].
  unfold Worker.cycle, Worker.bind. by rewrite Hp.
Qed.

Lemma cycle_keys r w s r' w' s' :
  Worker.cycle E r w s = (r', w', s') →
  keys (Worker.metrics_collector w) `prefix_of` keys (Worker.metrics_collector w')
  ∧ w' = Worker.with_metrics_collector (Worker.metrics_collector w') w
  ∧ (one_handle_per_key (Worker.metrics_collector w) →
     one_handle_per_key (Worker.metrics_collector w')).
Proof.
  intros Hc. destruct (cycle_inv r w s) as (w1 & s1 & Hp & Heq).
  rewrite Heq in Hc.
  destruct (process_status_keys E _ _ _ _ _ _ Hp) as (Hk1 & Hw1 & Hi1).
  destruct (clear_expired_metrics_keys _ _ _ _ _ Hc) as [Hk2 Hw2].
  split_and!.
  - by rewrite Hk2.
  - rewrite Hw2, Hw1. done.
  - intros Hinv.
    apply (one_handle_per_key_keys (Worker.metrics_collector w1)); auto.
Qed.

End Sweep.

(** ** The loop *)

Section Loop.

Variable E : Platform.

Lemma step_fn_inv i m m' :
  Worker.step_fn E i m = Some m' →
  (i = Worker.StopCall
   ∧ m' = {| Worker.at_pc := Worker.at_pc m;
             Worker.worker := Worker.stop (Worker.worker m);
             Worker.sys := Worker.sys m |})
  ∨ (i = Worker.Resume ∧ Worker.at_pc m = Worker.AtTop
     ∧ m' = {| Worker.at_pc := if Worker.running (Worker.worker m)
                               then Worker.AwaitRefresh else Worker.Exited;
               Worker.worker := Worker.worker m;
               Worker.sys := Worker.sys m |})
  ∨ (∃ r res w s, i = Worker.RefreshDone r
     ∧ Worker.at_pc m = Worker.AwaitRefresh
     ∧ Worker.cycle E r (Worker.worker m) (Worker.sys m) = (res, w, s)
     ∧ m' = {| Worker.at_pc := match res with
                               | Val _ => Worker.AwaitSleep
                               | Raise e => Worker.Crashed e
                               end;
               Worker.worker := w; Worker.sys := s |})
  ∨ (i = Worker.SleepDone ∧ Worker.at_pc m = Worker.AwaitSleep
     ∧ m' = {| Worker.at_pc := Worker.AtTop;
               Worker.worker := Worker.worker m;
               Worker.sys := Worker.sys m |}).
Proof.
  unfold Worker.step_fn. destruct i as [|r| |].
  - destruct (Worker.at_pc m) eqn:Hpc; try done.
    intros H. right. left. split_and!; try done.
    by destruct (Worker.running (Worker.worker m)); injection H as <-.
  - destruct (Worker.at_pc m) eqn:Hpc; try done.
    destruct (Worker.cycle E r (Worker.worker m) (Worker.sys m))
      as [[res w] s] eqn:Hc.
    intros H. right. right. left. exists r, res, w, s.
    split_and!; try done. by destruct res; injection H as <-.
  - destruct (Worker.at_pc m) eqn:Hpc; try done.
    intros [= <-]. by repeat right.
  - intros H. left. split; [done|].
    by destruct (Worker.at_pc m); injection H as <-.
Qed.

Lemma step_keys m m' :
  Worker.step E m m' →
  keys (Worker.metrics_collector (Worker.worker m))
    `prefix_of` keys (Worker.metrics_collector (Worker.worker m'))
  ∧ (one_handle_per_key (Worker.metrics_collector (Worker.worker m)) →
     one_handle_per_key (Worker.metrics_collector (Worker.worker m')))
  ∧ (Worker.running (Worker.worker m) = false →
     Worker.running (Worker.worker m') = false).
Proof.
  intros [i Hstep].
  apply step_fn_inv in Hstep
    as [(_ & ->)|[(_ & _ & ->)|[(r & res & w & s & _ & _ & Hc & ->)|(_ & _ & ->)]]];
    simpl; try done.
  destruct (cycle_keys E _ _ _ _ _ _ Hc) as (Hk & Hw & Hi).
  split_and!; try done. intros Hr. rewrite Hw. done.
Qed.

Lemma steps_keys m m' :
  rtc (Worker.step E) m m' →
  keys (Worker.metrics_collector (Worker.worker m))
    `prefix_of` keys (Worker.metrics_collector (Worker.worker m'))
  ∧ (one_handle_per_key (Worker.metrics_collector (Worker.worker m)) →
     one_handle_per_key (Worker.metrics_collector (Worker.worker m')))
  ∧ (Worker.running (Worker.worker m) = false →
     Worker.running (Worker.worker m') = false).
Proof.
  induction 1 as [m|m1 m2 m3 H12 _ IH]; [done|].
  destruct (step_keys _ _ H12) as (Hk & Hi & Hr).
  destruct IH as (Hk' & Hi' & Hr').
  split_and!; [by etrans | auto | auto].
Qed.

End Loop.
(** ** Properties of the poll cycle and of the registry *)

Section Cycle.

Variable E : Platform.

(** C4: when the status refresh fails, the protected region only logs the
    error: the worker, hence every handle with its value and update time,
    is unchanged; the cycle then is the expiration sweep run from that
    state. *)
Theorem failed_refresh_updates_nothing (error : exn) (w : Worker.t) (s : Sys) :
  Worker.process_status E (Worker.RefreshFailed error) w s
  = (Val tt, w, emit (Log ERROR (MsgErrorProcessing error)) s)
  ∧ Worker.cycle E (Worker.RefreshFailed error) w s
    = Worker.clear_expired_metrics E w
        (emit (Log ERROR (MsgErrorProcessing error)) s)
  ∧ ∃ r w' s',
      Worker.cycle E (Worker.RefreshFailed error) w s = (r, w', s')
      ∧ (ticks s < ticks s')%nat.
Proof.
  pose proof (process_status_inv E (Worker.RefreshFailed error) w s) as Hp.
  simpl in Hp.
  assert (Hc : Worker.cycle E (Worker.RefreshFailed error) w s
               = Worker.clear_expired_metrics E w
                   (emit (Log ERROR (MsgErrorProcessing error)) s)).
  { unfold Worker.cycle, Worker.bind. by rewrite Hp. }
  split_and!; [done | done |].
  rewrite Hc, clear_expired_metrics_inv.
  destruct (Worker.sweep _ _ _ _ _) as [[r l] s'] eqn:Hs.
  exists r, (Worker.with_metrics_collector l w), s'. split; [done|].
  destruct (sweep_keys E _ _ _ _ _ _ _ Hs) as [_ Ht]. simpl in Ht. lia.
Qed.



End Cycle.
Section Expiration.

Variable E : Platform.

(** C7: [clear] hides the published value and sets [last_update_time] to
    the clock reading of the clear.  A handle that a sweep selected is
    cleared by it once; any later sweep whose current time is within the
    threshold of that reading does not select it: the handle stays as it is
    and the sweep emits nothing for it.  Clearing a cleared handle again
    leaves the value hidden and [value] as it was. *)
Theorem cleared_handle_not_selected_again :
  (∀ self s,
     ∃ self' s',
       SmartThingsMetric.clear E self s = (self', s')
       ∧ published self' = None
       ∧ SmartThingsMetric.last_update_time self' = Some (time_time E (ticks s))
       ∧ SmartThingsMetric.value self' = SmartThingsMetric.value self
       ∧ SmartThingsMetric.payload_key self' = SmartThingsMetric.payload_key self)
  ∧ (∀ t1 thr l s l1 s1 i m,
       Worker.sweep E t1 thr l s = (Val tt, l1, s1) →
       l !! i = Some (Some m) → stale t1 thr m = true →
       ∃ m1 tc,
         l1 !! i = Some (Some m1)
         ∧ published m1 = None
         ∧ SmartThingsMetric.last_update_time m1 = Some tc
         ∧ SmartThingsMetric.value m1 = SmartThingsMetric.value m
         ∧ ∀ t2 l1' s2 r l2 s3,
             t2 - tc ≤ thr →
             l1' !! i = Some (Some m1) →
             Worker.sweep E t2 thr l1' s2 = (r, l2, s3) →
             l2 !! i = Some (Some m1)
             ∧ Worker.sweep_one E t2 thr (Some m1) s2 = (Val tt, Some m1, s2))
  ∧ (∀ self s s2,
       published (SmartThingsMetric.clear E
                    (SmartThingsMetric.clear E self s).1 s2).1 = None
       ∧ SmartThingsMetric.value
           (SmartThingsMetric.clear E (SmartThingsMetric.clear E self s).1 s2).1
         = SmartThingsMetric.value self).
Proof.
  split_and!.
  - intros self s. rewrite clear_effect. by do 2 eexists.
  - intros t1 thr l s l1 s1 i m Hsw Hi Hst.
    destruct (sweep_entry_cleared E _ _ _ _ _ _ _ _ Hsw Hi Hst) as (n & _ & Hl1).
    eexists _, (time_time E n). split_and!; [exact Hl1|done..|].
    intros t2 l1' s2 r l2 s3 Hle Hi' Hsw2.
    assert (Hfresh : stale t2 thr
              {| SmartThingsMetric.payload_key := SmartThingsMetric.payload_key m;
                 SmartThingsMetric.device_name := SmartThingsMetric.device_name m;
                 SmartThingsMetric.name := SmartThingsMetric.name m;
                 SmartThingsMetric.metric := ∅;
                 SmartThingsMetric.value := SmartThingsMetric.value m;
                 SmartThingsMetric.last_update_time := Some (time_time E n) |}
              = false).
    { unfold stale. simpl. lia. }
    split; [by eapply sweep_entry_kept|].
    unfold Worker.sweep_one. simpl.
    unfold stale in Hfresh. simpl in Hfresh. by rewrite Hfresh.
  - intros self s s2. by rewrite !clear_effect.
Qed.

End Expiration.

Section Stop.

Variable E : Platform.

Lemma ignores_running_bind {A B} (p : Worker.Proc A) (k : A → Worker.Proc B) :
  ignores_running p → (∀ a, ignores_running (k a)) →
  ignores_running (Worker.bind p k).
Proof.
  intros Hp Hk b w s. unfold Worker.bind. rewrite Hp.
  destruct (p w s) as [[[a|e] w'] s']; simpl; [apply Hk | done].
Qed.

Lemma ignores_running_try {A} (p : Worker.Proc A) (h : exn → Worker.Proc A) :
  ignores_running p → (∀ e, ignores_running (h e)) →
  ignores_running (Worker.try_except p h).
Proof.
  intros Hp Hh b w s. unfold Worker.try_except. rewrite Hp.
  destruct (p w s) as [[[a|e] w'] s']; simpl; [done | apply Hh].
Qed.

Lemma ignores_running_get k :
  ignores_running (Worker.get_metric_by_payload_key E k).
Proof.
  intros b w s.
  unfold Worker.get_metric_by_payload_key, Worker.create_new_metric,
    Worker.bind, Worker.log, Worker.ret, Worker.raise. simpl.
  destruct (Worker.find_metric k (Worker.metrics_collector w))
    as [[[i m]|]|e]; try done.
  destruct (SmartThingsMetric.init E k (Worker.device_name w)) as [m|[]];
    done.
Qed.

Lemma ignores_running_set_at i v : ignores_running (Worker.set_at E i v).
Proof.
  intros b w s. unfold Worker.set_at, Worker.raise. simpl.
  destruct (Worker.metrics_collector w !! i) as [[m|]|]; try done.
  by destruct (SmartThingsMetric.set E v m s) as [[r m'] s'].
Qed.

Lemma ignores_running_update_metrics values ks :
  ignores_running (Worker.update_metrics E values ks).
Proof.
  induction ks as [|k ks IH]; [done|]. simpl.
  apply ignores_running_bind; [|done].
  apply ignores_running_bind; [apply ignores_running_get|].
  intros [i|]; [apply ignores_running_set_at | done].
Qed.

Lemma ignores_running_cycle r : ignores_running (Worker.cycle E r).
Proof.
  apply ignores_running_bind.
  - apply ignores_running_try; [|done].
    destruct r as [values|e]; [|done].
    intros b w s. apply (ignores_running_update_metrics values).
  - intros _ b w s. rewrite !clear_expired_metrics_inv. simpl.
    by destruct (Worker.sweep _ _ _ _ _) as [[r0 l] s0].
Qed.

(** C8: [stop] only clears the flag: the machine stays where it is, in a
    cycle or asleep, and nothing else changes.  The end of a refresh and
    the end of a sleep are handled without looking at the flag; it is read
    when the loop is resumed at its top.  Once the flag is cleared it stays
    cleared, and resuming the loop at its top leads to the exit, never to a
    new cycle. *)
Theorem stop_is_cooperative :
  (∀ M,
     Worker.step_fn E Worker.StopCall M
     = Some {| Worker.at_pc := Worker.at_pc M;
               Worker.worker := Worker.with_running false (Worker.worker M);
               Worker.sys := Worker.sys M |})
  ∧ (∀ b M,
       (∀ r, Worker.step_fn E (Worker.RefreshDone r) (set_running b M)
             = set_running b <$> Worker.step_fn E (Worker.RefreshDone r) M)
       ∧ Worker.step_fn E Worker.SleepDone (set_running b M)
         = set_running b <$> Worker.step_fn E Worker.SleepDone M)
  ∧ (∀ M M',
       Worker.running (Worker.worker M) = false →
       rtc (Worker.step E) M M' →
       Worker.running (Worker.worker M') = false
       ∧ (∀ i M'', Worker.step_fn E i M' = Some M'' →
            Worker.at_pc M'' = Worker.AwaitRefresh →
            Worker.at_pc M' = Worker.AwaitRefresh ∧ i = Worker.StopCall)
       ∧ (Worker.at_pc M' = Worker.AtTop →
          Worker.step_fn E Worker.Resume M'
          = Some {| Worker.at_pc := Worker.Exited;
                    Worker.worker := Worker.worker M';
                    Worker.sys := Worker.sys M' |})).
Proof.
  split_and!.
  - intros M. unfold Worker.step_fn. by destruct (Worker.at_pc M).
  - intros b M. split.
    + intros r. unfold Worker.step_fn, set_running. simpl.
      destruct (Worker.at_pc M); try done.
      rewrite (ignores_running_cycle r b).
      by destruct (Worker.cycle E r (Worker.worker M) (Worker.sys M))
        as [[[[]|e] w] s].
    + unfold Worker.step_fn, set_running. simpl.
      by destruct (Worker.at_pc M).
  - intros M M' Hoff Hsteps.
    destruct (steps_keys E _ _ Hsteps) as (_ & _ & Hrun).
    specialize (Hrun Hoff). split_and!; [done| |].
    + intros i M'' Hstep Hpc.
      apply step_fn_inv in Hstep
        as [(-> & ->)|[(_ & _ & ->)|[(r & res & w & s & _ & _ & _ & ->)|(_ & _ & ->)]]];
        simpl in Hpc; try done.
      * by rewrite Hrun in Hpc.
      * by destruct res.
    + intros Hpc. unfold Worker.step_fn. by rewrite Hpc, Hrun.
Qed.

End Stop.
(** ** The statements at concrete inputs *)




Lemma cleared_handle_not_selected_again_witness :
  Worker.sweep late 1000 300
    [Some (handle "switch" {["lamp" := 1]} (VInt 1) (Some 0))] sys0
  = (Val tt, [Some (handle "switch" ∅ (VInt 1) (Some 1000))],
     {| ticks := 1;
        trace := [Log DEBUG (MsgClear "smartthings_switch");
                  GaugeClear "smartthings_switch";
                  Log INFO (MsgClearedExpired "smartthings_switch")] |})
  ∧ Worker.sweep_one late 1300 300
      (Some (handle "switch" ∅ (VInt 1) (Some 1000))) sys0
    = (Val tt, Some (handle "switch" ∅ (VInt 1) (Some 1000)), sys0).
Proof.
  split; [reflexivity|].
  destruct (proj1 (proj2 (cleared_handle_not_selected_again late))
              1000 300
              [Some (handle "switch" {["lamp" := 1]} (VInt 1) (Some 0))]
              sys0 _ _ 0%nat _ eq_refl eq_refl eq_refl)
    as (m1 & tc & Hl & _ & Ht & _ & Hlater).
  injection Hl as <-. injection Ht as <-.
  apply (Hlater 1300 [Some (handle "switch" ∅ (VInt 1) (Some 1000))] sys0
           (Val tt) [Some (handle "switch" ∅ (VInt 1) (Some 1000))] sys0);
    [lia | reflexivity | reflexivity].
Defined.

Lemma stop_is_cooperative_witness :
  Worker.step_fn plain Worker.Resume
    {| Worker.at_pc := Worker.AtTop;
       Worker.worker := Worker.stop (lamp ["switch"]);
       Worker.sys := sys0 |}
  = Some {| Worker.at_pc := Worker.Exited;
            Worker.worker := Worker.stop (lamp ["switch"]);
            Worker.sys := sys0 |}.
Proof.
  assert (Hwake : rtc (Worker.step plain)
            {| Worker.at_pc := Worker.AwaitSleep;
               Worker.worker := Worker.stop (lamp ["switch"]);
               Worker.sys := sys0 |}
            {| Worker.at_pc := Worker.AtTop;
               Worker.worker := Worker.stop (lamp ["switch"]);
               Worker.sys := sys0 |}).
  { apply rtc_once. exists Worker.SleepDone. reflexivity. }
  destruct (stop_is_cooperative plain) as (_ & _ & Hstopped).
  destruct (Hstopped
              {| Worker.at_pc := Worker.AwaitSleep;
                 Worker.worker := Worker.stop (lamp ["switch"]);
                 Worker.sys := sys0 |}
              {| Worker.at_pc := Worker.AtTop;
                 Worker.worker := Worker.stop (lamp ["switch"]);
                 Worker.sys := sys0 |}
              eq_refl Hwake) as (_ & _ & Hexit).
  apply Hexit. reflexivity.
Defined.

(** C2: a handle whose [last_update_time] is still [None] makes the sweep
    raise.  The key switch is configured, the device does not report it: the
    handle is created, [set(None)] leaves it without update time, and the
    sweep of the same cycle raises [TypeError] at that handle. *)
Theorem sweep_raises_on_never_updated_handle :
  Worker.process_status plain (Worker.Refreshed ∅) (lamp ["switch"]) sys0
  = (Val tt,
     Worker.with_metrics_collector
       [Some (handle "switch" ∅ VNone None)] (lamp ["switch"]),
     {| ticks := 0;
        trace := [Log DEBUG (MsgCannotFind "switch");
                  Log INFO (MsgCreated "switch" "smartthings_switch");
                  Log DEBUG (MsgSet "smartthings_switch" VNone)] |})
  ∧ Worker.clear_expired_metrics plain
      (Worker.with_metrics_collector
         [Some (handle "switch" ∅ VNone None)] (lamp ["switch"]))
      sys0
    = (Raise TypeError,
       Worker.with_metrics_collector
         [Some (handle "switch" ∅ VNone None)] (lamp ["switch"]),
       {| ticks := 1; trace := [] |}).
Proof. split; reflexivity. Qed.

(** C1: an exception raised by the sweep is outside the protected region
    and ends the loop.  In the first cycle of a worker that tracks the key
    switch, the status reports the string ["on"]: [set] raises [ValueError],
    which is caught and logged; the handle is left without update time, the
    sweep of the same cycle raises [TypeError] and the loop ends with it
    instead of going to sleep. *)
Theorem sweep_exception_ends_loop :
  Worker.process_status plain (Worker.Refreshed {["switch" := VStr "on"]})
    (lamp ["switch"]) sys0
  = (Val tt,
     Worker.with_metrics_collector
       [Some (handle "switch" {["lamp" := 0]} VNone None)] (lamp ["switch"]),
     {| ticks := 0;
        trace := [Log DEBUG (MsgCannotFind "switch");
                  Log INFO (MsgCreated "switch" "smartthings_switch");
                  Log DEBUG (MsgSet "smartthings_switch" (VStr "on"));
                  Log ERROR (MsgErrorProcessing ValueError)] |})
  ∧ Worker.at_pc
    <$> Worker.run plain
          [Worker.Resume;
           Worker.RefreshDone (Worker.Refreshed {["switch" := VStr "on"]})]
          (Worker.loop_start (lamp ["switch"]))
    = Some (Worker.Crashed TypeError)
  ∧ Worker.at_pc
    <$> Worker.run plain
          [Worker.Resume; Worker.RefreshDone (Worker.Refreshed ∅)]
          (Worker.loop_start (lamp ["switch"]))
    = Some (Worker.Crashed TypeError).
Proof. split_and!; reflexivity. Qed.

(** ** A handle that cannot be constructed *)

Section Construction.

Variable E : Platform.

Implicit Types (l : list (option SmartThingsMetric.t)) (w : Worker.t).



Hypothesis gauge_exceptions :
  ∀ name, Gauge_init E name ≠ Some SmartThingsMetricException.







End Construction.


(** ** Further properties of the handle *)

Section HandleMore.

Variable E : Platform.

(** X1: a [set] that returned is idempotent: setting the same value again
    changes nothing on the handle, publishes nothing and does not read the
    clock. *)
Theorem set_twice_same_value v self s self' s' s2 :
  SmartThingsMetric.set E v self s = (Val tt, self', s') →
  SmartThingsMetric.set E v self' s2
  = (Val tt, self',
     emit (Log DEBUG (MsgSet (SmartThingsMetric.name self') v)) s2).
Proof.
  intros Hset. apply set_unchanged.
  destruct (decide (SmartThingsMetric.value self = v)) as [Heq|Hne].
  - rewrite (set_unchanged E _ _ _ Heq) in Hset. by injection Hset as <- _.
  - destruct (Gauge.float E v) as [x|e] eqn:Hfl.
    + rewrite (set_changed E _ _ _ _ Hne Hfl) in Hset. by injection Hset as <- _.
    + rewrite (set_rejected E _ _ _ _ Hne Hfl) in Hset. discriminate.
Qed.

(** X2: [clear] keeps [value], so a cleared handle that is set to the value
    it had stays hidden: nothing is published and [last_update_time] is the
    time of the clear; it is published again only by a value that differs,
    and then with that value. *)
Theorem cleared_value_not_republished self s s2 :
  SmartThingsMetric.set E (SmartThingsMetric.value self)
    (SmartThingsMetric.clear E self s).1 s2
  = (Val tt, (SmartThingsMetric.clear E self s).1,
     emit (Log DEBUG (MsgSet (SmartThingsMetric.name self)
                             (SmartThingsMetric.value self))) s2)
  ∧ published (SmartThingsMetric.clear E self s).1 = None
  ∧ ∀ v x, v ≠ SmartThingsMetric.value self → Gauge.float E v = Val x →
      ∃ self' s',
        SmartThingsMetric.set E v (SmartThingsMetric.clear E self s).1 s2
        = (Val tt, self', s')
        ∧ published self' = Some x
        ∧ SmartThingsMetric.value self' = v.
Proof.
  rewrite clear_effect. simpl. split_and!.
  - by rewrite set_unchanged.
  - done.
  - intros v x Hne Hx. rewrite (set_changed E _ _ _ x); [|by simpl|done].
    do 2 eexists. split_and!; [done| |done].
    unfold published. simpl. by rewrite lookup_insert_eq.
Qed.

End HandleMore.

Lemma set_twice_same_value_witness :
  SmartThingsMetric.set plain (VInt 1)
    (handle "switch" {["lamp" := 1]} (VInt 1) (Some 0)) sys0
  = (Val tt, handle "switch" {["lamp" := 1]} (VInt 1) (Some 0),
     {| ticks := 0;
        trace := [Log DEBUG (MsgSet "smartthings_switch" (VInt 1))] |}).
Proof.
  exact (set_twice_same_value plain (VInt 1) (handle "switch" ∅ VNone None)
           sys0 _ _ sys0 eq_refl).
Defined.

(** ** Further properties of the sweep *)

Section SweepMore.

Variable E : Platform.

Implicit Types (l : list (option SmartThingsMetric.t)) (w : Worker.t).

Lemma sweep_one_healthy t thr entry s :
  has_update_time entry →
  ∃ entry' s', Worker.sweep_one E t thr entry s = (Val tt, entry', s')
               ∧ has_update_time entry'.
Proof.
  intros (m & u & -> & Hu). destruct (stale t thr m) eqn:Hst.
  - rewrite (sweep_one_cleared E _ _ _ _ Hst). do 2 eexists.
    split; [done|]. by eexists _, _.
  - unfold Worker.sweep_one. unfold stale in Hst. rewrite Hu in *.
    rewrite Hst. do 2 eexists. split; [done|]. by exists m, u.
Qed.

Lemma sweep_one_returns t thr entry s entry' s' :
  Worker.sweep_one E t thr entry s = (Val tt, entry', s') →
  has_update_time entry.
Proof.
  destruct entry as [m|]; [|done]. unfold Worker.sweep_one.
  destruct (SmartThingsMetric.last_update_time m) as [u|] eqn:Hu; [|done].
  intros _. by exists m, u.
Qed.

Lemma sweep_healthy t thr l : ∀ s,
  healthy l →
  ∃ l' s', Worker.sweep E t thr l s = (Val tt, l', s') ∧ healthy l'.
Proof.
  induction l as [|entry l IH]; intros s Hh.
  - by exists [], s.
  - apply Forall_cons in Hh as [Hentry Hh]. rewrite sweep_cons.
    destruct (sweep_one_healthy t thr entry s Hentry)
      as (entry' & s1 & -> & Hentry').
    destruct (IH s1 Hh) as (l' & s' & -> & Hh').
    exists (entry' :: l'), s'. split; [done|]. by constructor.
Qed.

Lemma sweep_returns t thr l : ∀ s l' s',
  Worker.sweep E t thr l s = (Val tt, l', s') → healthy l.
Proof.
  induction l as [|entry l IH]; intros s l' s' H; [constructor|].
  rewrite sweep_cons in H.
  destruct (Worker.sweep_one E t thr entry s) as [[[[]|e] entry1] s1] eqn:H1;
    [|done].
  destruct (Worker.sweep E t thr l s1) as [[r2 l2] s2] eqn:H2.
  injection H as -> <- <-.
  constructor; [by eapply sweep_one_returns | by eapply IH].
Qed.

(** X3: [clear_expired_metrics] returns exactly when every entry of the
    registry is a handle with an update time; otherwise it raises.  When
    it returns, the registry is again of that kind. *)
Theorem sweep_returns_iff_healthy w s :
  ((∃ w' s', Worker.clear_expired_metrics E w s = (Val tt, w', s'))
   ↔ healthy (Worker.metrics_collector w))
  ∧ (∀ w' s', Worker.clear_expired_metrics E w s = (Val tt, w', s') →
       healthy (Worker.metrics_collector w'))
  ∧ (¬ healthy (Worker.metrics_collector w) →
     ∃ e w' s', Worker.clear_expired_metrics E w s = (Raise e, w', s')
                ∧ (e = TypeError ∨ e = AttributeError)).
Proof.
  rewrite clear_expired_metrics_inv. split_and!.
  - split.
    + intros (w' & s' & H).
      destruct (Worker.sweep _ _ _ _ _) as [[r l'] s1] eqn:Hs.
      injection H as -> _ _. by eapply sweep_returns.
    + intros Hh.
      destruct (sweep_healthy (time_time E (ticks s))
                  (Worker.expiration_threshold w) _
                  {| ticks := S (ticks s); trace := trace s |} Hh)
        as (l' & s' & -> & _).
      by do 2 eexists.
  - intros w' s' H.
    destruct (Worker.sweep _ _ _ _ _) as [[r l'] s1] eqn:Hs.
    injection H as -> <- _. simpl.
    pose proof (sweep_returns _ _ _ _ _ _ Hs) as Hh.
    destruct (sweep_healthy (time_time E (ticks s))
                (Worker.expiration_threshold w) _
                {| ticks := S (ticks s); trace := trace s |} Hh)
      as (l2 & s2 & Hs2 & Hh2).
    rewrite Hs in Hs2. by injection Hs2 as <- _.
  - intros Hnot.
    destruct (Worker.sweep _ _ _ _ _) as [[[[]|e] l'] s1] eqn:Hs.
    + destruct Hnot. by eapply sweep_returns.
    + exists e. do 2 eexists. split; [done|].
      clear Hnot. revert Hs.
      generalize {| ticks := S (ticks s); trace := trace s |}.
      revert l'.
      induction (Worker.metrics_collector w) as [|entry l IH]; intros l' s0 Hs;
        [done|].
      rewrite sweep_cons in Hs.
      destruct (Worker.sweep_one E _ _ entry s0) as [[[[]|e1] entry1] s2] eqn:H1.
      * destruct (Worker.sweep E _ _ l s2) as [[r2 l2] s3] eqn:H2.
        injection Hs as -> _ ->. by eapply IH.
      * injection Hs as <- _ _. unfold Worker.sweep_one in H1.
        destruct entry as [m|]; [|injection H1 as <-; by right].
        destruct (SmartThingsMetric.last_update_time m);
          [|injection H1 as <-; by left].
        by destruct (_ >? _), (SmartThingsMetric.clear E m s0).
Qed.

Lemma clears_app tr1 tr2 : clears (tr1 ++ tr2) = (clears tr1 + clears tr2)%nat.
Proof.
  induction tr1 as [|[] tr1 IH]; simpl; by rewrite ?IH.
Qed.

Lemma sweep_one_effect t thr entry s r entry' s' :
  Worker.sweep_one E t thr entry s = (r, entry', s') →
  ticks s' = (ticks s + if entry_stale t thr entry then 1 else 0)%nat
  ∧ clears (trace s')
    = (clears (trace s) + if entry_stale t thr entry then 1 else 0)%nat
  ∧ ∀ m', entry' = Some m' →
      ∃ m, entry = Some m
           ∧ SmartThingsMetric.value m' = SmartThingsMetric.value m
           ∧ SmartThingsMetric.payload_key m' = SmartThingsMetric.payload_key m
           ∧ SmartThingsMetric.name m' = SmartThingsMetric.name m
           ∧ SmartThingsMetric.device_name m'
             = SmartThingsMetric.device_name m.
Proof.
  destruct entry as [m|]; [|intros [= <- <- <-]; simpl; split_and!; [lia..|done]].
  unfold entry_stale. destruct (stale t thr m) eqn:Hst.
  - rewrite (sweep_one_cleared E _ _ _ _ Hst). intros [= <- <- <-]. simpl.
    rewrite clears_app. simpl. split_and!; [lia | lia |].
    intros m' [= <-]. by exists m.
  - destruct (sweep_one_kept E t thr m s Hst) as [r0 ->].
    intros [= <- <- <-]. split_and!; [lia | lia |].
    intros m' [= <-]. by exists m.
Qed.

Lemma sweep_clears_selected_only_aux t thr l : ∀ s r l' s',
  Worker.sweep E t thr l s = (r, l', s') →
  length l' = length l
  ∧ (∀ i m', l' !! i = Some (Some m') →
       ∃ m, l !! i = Some (Some m)
            ∧ SmartThingsMetric.value m' = SmartThingsMetric.value m
            ∧ SmartThingsMetric.payload_key m' = SmartThingsMetric.payload_key m
            ∧ SmartThingsMetric.name m' = SmartThingsMetric.name m
            ∧ SmartThingsMetric.device_name m'
              = SmartThingsMetric.device_name m).
Proof.
  induction l as [|entry l IH]; intros s r l' s' H.
  - injection H as <- <- <-. done.
  - rewrite sweep_cons in H.
    destruct (Worker.sweep_one E t thr entry s) as [[r1 entry1] s1] eqn:H1.
    destruct (sweep_one_effect _ _ _ _ _ _ _ H1) as (_ & _ & He1).
    destruct r1 as [[]|e].
    + destruct (Worker.sweep E t thr l s1) as [[r2 l2] s2] eqn:H2.
      destruct (IH _ _ _ _ H2) as (Hlen & Hent).
      injection H as <- <- <-. simpl. split; [by rewrite Hlen|].
      intros [|i] m' Hi; simpl in *; [|by apply Hent].
      injection Hi as ->. destruct (He1 m' eq_refl) as (m & -> & Hm).
      by exists m.
    + injection H as <- <- <-. simpl. split; [done|].
      intros [|i] m' Hi; simpl in *; [|by exists m'].
      injection Hi as ->. destruct (He1 m' eq_refl) as (m & -> & Hm).
      by exists m.
Qed.

End SweepMore.

Section SweepExact.

Variable E : Platform.

Implicit Types (l : list (option SmartThingsMetric.t)) (w : Worker.t).





End SweepExact.

(** ** Invariants of the registry along the runs of the loop *)

Section RegistryMore.

Variable E : Platform.

Implicit Types (l : list (option SmartThingsMetric.t)) (w : Worker.t).

Lemma settings_of_collector w w' :
  w' = Worker.with_metrics_collector (Worker.metrics_collector w') w →
  same_settings w w' ∧ Worker.running w' = Worker.running w.
Proof. intros ->. simpl. by repeat split. Qed.

Lemma init_well_formed k d m :
  SmartThingsMetric.init E k d = Val m →
  SmartThingsMetric.payload_key m = k ∧ well_formed d m.
Proof.
  unfold SmartThingsMetric.init. destruct (Gauge_init E _); [done|].
  by intros [= <-].
Qed.

Lemma get_metric_registered k w s r w' s' :
  Worker.get_metric_by_payload_key E k w s = (r, w', s') →
  k ∈ Worker.device_metrics w →
  registered (Worker.device_metrics w) (Worker.device_name w)
    (Worker.metrics_collector w) →
  registered (Worker.device_metrics w) (Worker.device_name w)
    (Worker.metrics_collector w').
Proof.
  intros Hget Hk Hreg. pose proof (get_metric_cases E k w s) as Hc.
  destruct (Worker.find_metric k (Worker.metrics_collector w))
    as [[[i0 m0]|]|e] eqn:Hf.
  - rewrite Hc in Hget. by injection Hget as <- <- <-.
  - destruct (SmartThingsMetric.init E k (Worker.device_name w))
      as [m|e] eqn:Hi.
    + rewrite Hc in Hget. injection Hget as <- <- <-. simpl.
      apply Forall_app. split; [done|]. constructor; [|constructor].
      intros m' [= <-]. destruct (init_well_formed _ _ _ Hi) as [-> Hwf].
      done.
    + destruct e; rewrite Hc in Hget; injection Hget as <- <- <-; simpl;
        try done.
      apply Forall_app. split; [done|]. by constructor.
  - rewrite Hc in Hget. by injection Hget as <- <- <-.
Qed.

Lemma set_at_registered i v w s r w' s' ks d :
  Worker.set_at E i v w s = (r, w', s') →
  registered ks d (Worker.metrics_collector w) →
  registered ks d (Worker.metrics_collector w').
Proof.
  intros Hs Hreg.
  apply set_at_inv in Hs as [(m & m' & Hi & Hset & ->)|(_ & -> & _)]; [|done].
  simpl. apply Forall_insert; [done|]. intros m0 [= <-].
  unfold registered in Hreg. rewrite Forall_lookup in Hreg.
  destruct (Hreg _ _ Hi m eq_refl) as [Hin [Hn Hd]].
  destruct (set_payload_key E _ _ _ _ _ _ Hset) as (Hk' & Hd' & Hn').
  unfold well_formed. by rewrite Hk', Hd', Hn'.
Qed.

Lemma update_metric_registered values k w s r w' s' :
  Worker.update_metric E values k w s = (r, w', s') →
  k ∈ Worker.device_metrics w →
  registered (Worker.device_metrics w) (Worker.device_name w)
    (Worker.metrics_collector w) →
  registered (Worker.device_metrics w) (Worker.device_name w)
    (Worker.metrics_collector w').
Proof.
  intros Hu Hk Hreg.
  apply update_metric_inv in Hu as (rg & w1 & s1 & Hget & Hrest).
  pose proof (get_metric_registered _ _ _ _ _ _ Hget Hk Hreg) as Hreg1.
  destruct rg as [[i|]|e].
  - by eapply set_at_registered.
  - by destruct Hrest as (_ & -> & _).
  - by destruct Hrest as (_ & -> & _).
Qed.

Lemma update_metrics_registered values ks : ∀ w s r w' s',
  Worker.update_metrics E values ks w s = (r, w', s') →
  ks ⊆ Worker.device_metrics w →
  registered (Worker.device_metrics w) (Worker.device_name w)
    (Worker.metrics_collector w) →
  registered (Worker.device_metrics w) (Worker.device_name w)
    (Worker.metrics_collector w').
Proof.
  induction ks as [|k ks IH]; intros w s r w' s' Hu Hsub Hreg.
  - by injection Hu as <- <- <-.
  - rewrite update_metrics_cons in Hu.
    destruct (Worker.update_metric E values k w s) as [[r1 w1] s1] eqn:H1.
    assert (Hk : k ∈ Worker.device_metrics w) by (apply Hsub; by left).
    pose proof (update_metric_registered _ _ _ _ _ _ _ H1 Hk Hreg) as Hreg1.
    destruct r1 as [[]|e]; [|by injection Hu as <- <- <-].
    destruct (update_metric_keys E _ _ _ _ _ _ _ H1) as [_ Hw1].
    destruct (settings_of_collector _ _ Hw1) as [(_ & _ & Hd & Hm & _) _].
    rewrite <- Hm, <- Hd. eapply IH; [done| |].
    + rewrite Hm. intros x Hx. apply Hsub. by right.
    + by rewrite Hm, Hd.
Qed.

Lemma sweep_registered t thr l s r l' s' ks d :
  Worker.sweep E t thr l s = (r, l', s') →
  registered ks d l → registered ks d l'.
Proof.
  intros Hs Hreg.
  destruct (sweep_clears_selected_only_aux E _ _ _ _ _ _ _ Hs) as (Hlen & Hent).
  unfold registered in *. rewrite Forall_lookup in *.
  intros i entry Hi m ->.
  destruct (Hent _ _ Hi) as (m0 & Hi0 & _ & Hk & Hn & Hd).
  destruct (Hreg _ _ Hi0 m0 eq_refl) as [Hin [Hn0 Hd0]].
  unfold well_formed. by rewrite Hk, Hn, Hd.
Qed.

Lemma cycle_registered r w s r' w' s' :
  Worker.cycle E r w s = (r', w', s') →
  registered (Worker.device_metrics w) (Worker.device_name w)
    (Worker.metrics_collector w) →
  registered (Worker.device_metrics w') (Worker.device_name w')
    (Worker.metrics_collector w').
Proof.
  intros Hc Hreg.
  destruct (cycle_keys E _ _ _ _ _ _ Hc) as (_ & Hw' & _).
  destruct (settings_of_collector _ _ Hw') as [(_ & _ & -> & -> & _) _].
  destruct (cycle_inv E r w s) as (w1 & s1 & Hp & Heq). rewrite Heq in Hc.
  assert (Hreg1 : registered (Worker.device_metrics w) (Worker.device_name w)
                    (Worker.metrics_collector w1)).
  { pose proof (process_status_inv E r w s) as Hinv.
    destruct r as [values|e].
    - destruct (Worker.update_metrics E values (Worker.device_metrics w) w s)
        as [[r1 w2] s2] eqn:Hu.
      pose proof (update_metrics_registered _ _ _ _ _ _ _ Hu
                    (reflexivity _) Hreg) as Hreg2.
      destruct r1 as [[]|e]; rewrite Hinv in Hp; by injection Hp as <- _.
    - rewrite Hinv in Hp. by injection Hp as <- _. }
  rewrite clear_expired_metrics_inv in Hc.
  destruct (process_status_keys E _ _ _ _ _ _ Hp) as (_ & Hw1 & _).
  destruct (settings_of_collector _ _ Hw1) as [(_ & _ & _ & _ & _ & Hthr) _].
  destruct (Worker.sweep _ _ _ _ _) as [[r2 l2] s2] eqn:Hs.
  injection Hc as _ <- _. simpl. by eapply sweep_registered.
Qed.

Lemma step_registered M M' :
  Worker.step E M M' →
  (registered (Worker.device_metrics (Worker.worker M))
     (Worker.device_name (Worker.worker M))
     (Worker.metrics_collector (Worker.worker M)) →
   registered (Worker.device_metrics (Worker.worker M'))
     (Worker.device_name (Worker.worker M'))
     (Worker.metrics_collector (Worker.worker M')))
  ∧ same_settings (Worker.worker M) (Worker.worker M').
Proof.
  intros [i Hstep].
  apply step_fn_inv in Hstep
    as [(_ & ->)|[(_ & _ & ->)|[(r & res & w & s & _ & _ & Hc & ->)|(_ & _ & ->)]]];
    simpl; try by repeat split.
  split; [by eapply cycle_registered|].
  destruct (cycle_keys E _ _ _ _ _ _ Hc) as (_ & Hw' & _).
  by destruct (settings_of_collector _ _ Hw').
Qed.

Lemma steps_registered M M' :
  rtc (Worker.step E) M M' →
  (registered (Worker.device_metrics (Worker.worker M))
     (Worker.device_name (Worker.worker M))
     (Worker.metrics_collector (Worker.worker M)) →
   registered (Worker.device_metrics (Worker.worker M'))
     (Worker.device_name (Worker.worker M'))
     (Worker.metrics_collector (Worker.worker M')))
  ∧ same_settings (Worker.worker M) (Worker.worker M').
Proof.
  induction 1 as [M|M1 M2 M3 H12 _ [IHreg IHset]]; [by repeat split|].
  destruct (step_registered _ _ H12) as [Hreg Hset].
  split; [auto|].
  destruct Hset as (? & ? & ? & ? & ? & ?), IHset as (? & ? & ? & ? & ? & ?).
  repeat split; congruence.
Qed.

Lemma handles_cons_Some m l : handles (Some m :: l) = m :: handles l.
Proof. done. Qed.

Lemma handles_elem m l : m ∈ handles l ↔ ∃ i, l !! i = Some (Some m).
Proof.
  unfold handles. rewrite list_elem_of_omap. split.
  - intros (x & Hx & Hid). simpl in Hid. subst x.
    by apply list_elem_of_lookup in Hx.
  - intros [i Hi]. exists (Some m). split; [|done].
    apply list_elem_of_lookup. by exists i.
Qed.

Lemma one_handle_per_key_tail entry l :
  one_handle_per_key (entry :: l) → one_handle_per_key l.
Proof.
  intros Hinv i j m1 m2 Hi Hj Hk.
  assert (S i = S j) by by apply (Hinv (S i) (S j) m1 m2). lia.
Qed.

Lemma one_handle_per_key_NoDup l :
  one_handle_per_key l →
  NoDup (SmartThingsMetric.payload_key <$> handles l).
Proof.
  induction l as [|[m|] l IH]; intros Hinv.
  - constructor.
  - rewrite handles_cons_Some, fmap_cons. constructor.
    + intros Hin. apply list_elem_of_fmap in Hin as (m2 & Hk & Hm2).
      apply handles_elem in Hm2 as [j Hj].
      by specialize (Hinv 0%nat (S j) m m2 eq_refl Hj Hk).
    + apply IH. by eapply one_handle_per_key_tail.
  - apply IH. by eapply one_handle_per_key_tail.
Qed.

Lemma name_of_key_inj (a b : string) :
  "smartthings_" +:+ a = "smartthings_" +:+ b → a = b.
Proof. cbn. intros H. by injection H. Qed.

(** X5: along every run of the loop of a new worker, every handle of the
    registry belongs to a configured key, whatever the device reports, and
    there are at most as many handles as configured keys. *)
Theorem only_configured_keys_get_handles token id name ks interval threshold M :
  rtc (Worker.step E)
    (Worker.loop_start (Worker.init token id name ks interval threshold)) M →
  (∀ i m, Worker.metrics_collector (Worker.worker M) !! i = Some (Some m) →
     SmartThingsMetric.payload_key m ∈ ks)
  ∧ (length (handles (Worker.metrics_collector (Worker.worker M)))
     ≤ length ks)%nat.
Proof.
  intros Hrun.
  destruct (steps_registered _ _ Hrun) as [Hreg (_ & _ & Hd & Hm & _)].
  simpl in Hreg, Hd, Hm. specialize (Hreg (Forall_nil_2 _)).
  rewrite Hm, Hd in Hreg. unfold registered in Hreg.
  rewrite Forall_lookup in Hreg.
  assert (Hkeys : ∀ i m,
            Worker.metrics_collector (Worker.worker M) !! i = Some (Some m) →
            SmartThingsMetric.payload_key m ∈ ks).
  { intros i m Hi. by destruct (Hreg _ _ Hi m eq_refl). }
  split; [done|].
  destruct (steps_keys E _ _ Hrun) as (_ & Hinv & _).
  assert (Hone : one_handle_per_key
                   (Worker.metrics_collector (Worker.worker M))).
  { apply Hinv. by intros i j m1 m2 Hi. }
  rewrite <- (length_fmap SmartThingsMetric.payload_key).
  apply submseteq_length, NoDup_submseteq;
    [by apply one_handle_per_key_NoDup|].
  intros k Hk. apply list_elem_of_fmap in Hk as (m & -> & Hm').
  apply handles_elem in Hm' as [i Hi]. by eapply Hkeys.
Qed.

(** X6: along every run of the loop of a new worker, every handle has the
    name ["smartthings_"] followed by its key and the device label of the
    worker, and no two handles have the same name. *)
Theorem handle_names_derived_and_distinct token id name ks interval threshold M :
  rtc (Worker.step E)
    (Worker.loop_start (Worker.init token id name ks interval threshold)) M →
  (∀ i m, Worker.metrics_collector (Worker.worker M) !! i = Some (Some m) →
     SmartThingsMetric.name m
     = "smartthings_" +:+ SmartThingsMetric.payload_key m
     ∧ SmartThingsMetric.device_name m = name)
  ∧ (∀ i j m1 m2,
       Worker.metrics_collector (Worker.worker M) !! i = Some (Some m1) →
       Worker.metrics_collector (Worker.worker M) !! j = Some (Some m2) →
       SmartThingsMetric.name m1 = SmartThingsMetric.name m2 →
       i = j).
Proof.
  intros Hrun.
  destruct (steps_registered _ _ Hrun) as [Hreg (_ & _ & Hd & Hm & _)].
  simpl in Hreg, Hd, Hm. specialize (Hreg (Forall_nil_2 _)).
  rewrite Hm, Hd in Hreg. unfold registered in Hreg.
  rewrite Forall_lookup in Hreg.
  assert (Hwf : ∀ i m,
            Worker.metrics_collector (Worker.worker M) !! i = Some (Some m) →
            well_formed name m).
  { intros i m Hi. by destruct (Hreg _ _ Hi m eq_refl). }
  split; [done|].
  intros i j m1 m2 Hi Hj Hn.
  destruct (steps_keys E _ _ Hrun) as (_ & Hinv & _).
  assert (Hone : one_handle_per_key
                   (Worker.metrics_collector (Worker.worker M))).
  { apply Hinv. by intros i' j' m1' m2' Hi'. }
  apply (Hone i j m1 m2 Hi Hj).
  destruct (Hwf _ _ Hi) as [Hn1 _], (Hwf _ _ Hj) as [Hn2 _].
  apply name_of_key_inj. congruence.
Qed.

(** X7: a step of the loop never removes, moves or re-keys an entry of the
    registry: the keys of the registry before a run are a prefix of the
    keys after it.  Nothing else of the worker changes but the running
    flag. *)
Theorem registry_is_append_only M M' :
  rtc (Worker.step E) M M' →
  keys (Worker.metrics_collector (Worker.worker M))
    `prefix_of` keys (Worker.metrics_collector (Worker.worker M'))
  ∧ (length (Worker.metrics_collector (Worker.worker M))
     ≤ length (Worker.metrics_collector (Worker.worker M')))%nat
  ∧ same_settings (Worker.worker M) (Worker.worker M').
Proof.
  intros Hrun.
  destruct (steps_keys E _ _ Hrun) as (Hpre & _ & _).
  destruct (steps_registered _ _ Hrun) as [_ Hset].
  split_and!; [done| |done].
  apply prefix_length in Hpre. unfold keys in Hpre.
  by rewrite !length_fmap in Hpre.
Qed.

(** X9: the protected region of a cycle never raises: whatever the refresh
    did and whatever the handling of the keys raised, control reaches the
    sweep. *)
Theorem protected_region_never_raises r w s :
  ∃ w' s', Worker.process_status E r w s = (Val tt, w', s')
           ∧ same_settings w w'
           ∧ Worker.running w' = Worker.running w.
Proof.
  destruct (process_status_total E r w s) as (w' & s' & Hp).
  exists w', s'. split; [done|].
  destruct (process_status_keys E _ _ _ _ _ _ Hp) as (_ & Hw' & _).
  by apply settings_of_collector.
Qed.

End RegistryMore.
(** ** When the loop keeps running *)

Section Healthy.

Variable E : Platform.

Implicit Types (l : list (option SmartThingsMetric.t)) (w : Worker.t).

Lemma has_key_iff k l :
  (∃ i m, l !! i = Some (Some m) ∧ SmartThingsMetric.payload_key m = k)
  ↔ ∃ i, keys l !! i = Some (Some k).
Proof.
  split.
  - intros (i & m & Hi & <-). exists i. by rewrite keys_lookup, Hi.
  - intros [i Hi]. rewrite keys_lookup in Hi.
    destruct (l !! i) as [[m|]|] eqn:Hl; simplify_eq/=. by exists i, m.
Qed.

Lemma complete_keys ks l l' :
  keys l `prefix_of` keys l' → complete ks l → complete ks l'.
Proof.
  intros [tl Hpre] Hc k Hk. apply has_key_iff.
  destruct (proj1 (has_key_iff k l) (Hc k Hk)) as [i Hi].
  exists i. rewrite Hpre. by apply lookup_app_l_Some.
Qed.

Lemma find_metric_healthy k l e :
  healthy l → Worker.find_metric k l ≠ Raise e.
Proof.
  induction l as [|entry l IH]; intros Hh; [done|].
  apply Forall_cons in Hh as [(m & u & -> & _) Hh]. simpl.
  destruct (decide (SmartThingsMetric.payload_key m = k)); [done|].
  specialize (IH Hh).
  by destruct (Worker.find_metric k l) as [[[i' m']|]|e'].
Qed.

Lemma find_metric_present k l :
  healthy l →
  (∃ i m, l !! i = Some (Some m) ∧ SmartThingsMetric.payload_key m = k) →
  ∃ i m, Worker.find_metric k l = Val (Some (i, m)).
Proof.
  intros Hh (i & m & Hi & Hk).
  destruct (Worker.find_metric k l) as [[[i' m']|]|e] eqn:Hf.
  - by eauto.
  - pose proof (find_metric_None _ _ Hf) as Hall.
    rewrite Forall_lookup in Hall.
    destruct (Hall _ _ Hi) as (m0 & [= <-] & Hne). done.
  - by destruct (find_metric_healthy k l e Hh).
Qed.

Lemma set_keeps_update_time v m s r m' s' :
  SmartThingsMetric.set E v m s = (r, m', s') →
  has_update_time (Some m) → has_update_time (Some m').
Proof.
  intros Hset (m0 & u & [= <-] & Hu).
  destruct (decide (SmartThingsMetric.value m = v)) as [Heq|Hne].
  - rewrite (set_unchanged E _ _ _ Heq) in Hset. injection Hset as _ <- _.
    by exists m, u.
  - destruct (Gauge.float E v) as [x|e] eqn:Hfl.
    + rewrite (set_changed E _ _ _ _ Hne Hfl) in Hset.
      injection Hset as _ <- _. by eexists _, _.
    + rewrite (set_rejected E _ _ _ _ Hne Hfl) in Hset.
      injection Hset as _ <- _. by eexists _, u.
Qed.

Lemma set_at_healthy i v w s r w' s' :
  Worker.set_at E i v w s = (r, w', s') →
  healthy (Worker.metrics_collector w) →
  healthy (Worker.metrics_collector w').
Proof.
  intros Hs Hh.
  apply set_at_inv in Hs as [(m & m' & Hi & Hset & ->)|(_ & -> & _)]; [|done].
  simpl. apply Forall_insert; [done|].
  apply (set_keeps_update_time _ _ _ _ _ _ Hset).
  unfold healthy in Hh. rewrite Forall_lookup in Hh. by apply (Hh i).
Qed.

(** Handling a key that has its handle, in a healthy registry. *)
Lemma update_metric_present values k w s r w' s' :
  Worker.update_metric E values k w s = (r, w', s') →
  healthy (Worker.metrics_collector w) →
  (∃ i m, Worker.metrics_collector w !! i = Some (Some m)
          ∧ SmartThingsMetric.payload_key m = k) →
  healthy (Worker.metrics_collector w')
  ∧ keys (Worker.metrics_collector w') = keys (Worker.metrics_collector w).
Proof.
  intros Hu Hh Hk.
  apply update_metric_inv in Hu as (rg & w1 & s1 & Hget & Hrest).
  destruct (find_metric_present k _ Hh Hk) as (i & m & Hf).
  pose proof (get_metric_cases E k w s) as Hc. rewrite Hf in Hc.
  rewrite Hc in Hget. injection Hget as <- <- <-.
  split; [by eapply set_at_healthy|].
  by destruct (set_at_keys E _ _ _ _ _ _ _ Hrest).
Qed.

Lemma update_metrics_present values ks : ∀ w s r w' s',
  Worker.update_metrics E values ks w s = (r, w', s') →
  healthy (Worker.metrics_collector w) →
  complete ks (Worker.metrics_collector w) →
  healthy (Worker.metrics_collector w')
  ∧ keys (Worker.metrics_collector w') = keys (Worker.metrics_collector w).
Proof.
  induction ks as [|k ks IH]; intros w s r w' s' Hu Hh Hc.
  - by injection Hu as <- <- <-.
  - rewrite update_metrics_cons in Hu.
    destruct (Worker.update_metric E values k w s) as [[r1 w1] s1] eqn:H1.
    destruct (update_metric_present _ _ _ _ _ _ _ H1 Hh) as [Hh1 Hk1].
    { apply Hc. by left. }
    destruct r1 as [[]|e]; [|by injection Hu as <- <- <-].
    destruct (IH _ _ _ _ _ Hu Hh1) as [Hh' Hk'].
    { apply (complete_keys _ (Worker.metrics_collector w)); [by rewrite Hk1|].
      intros k' Hk'. apply Hc. by right. }
    split; [done | congruence].
Qed.

Lemma cycle_healthy_complete r w s :
  healthy (Worker.metrics_collector w) →
  complete (Worker.device_metrics w) (Worker.metrics_collector w) →
  ∃ w' s',
    Worker.cycle E r w s = (Val tt, w', s')
    ∧ healthy (Worker.metrics_collector w')
    ∧ keys (Worker.metrics_collector w') = keys (Worker.metrics_collector w)
    ∧ Worker.device_metrics w' = Worker.device_metrics w.
Proof.
  intros Hh Hc. destruct (cycle_inv E r w s) as (w1 & s1 & Hp & ->).
  assert (H1 : healthy (Worker.metrics_collector w1)
               ∧ keys (Worker.metrics_collector w1)
                 = keys (Worker.metrics_collector w)).
  { pose proof (process_status_inv E r w s) as Hinv.
    destruct r as [values|e].
    - destruct (Worker.update_metrics E values (Worker.device_metrics w) w s)
        as [[r1 w2] s2] eqn:Hu.
      pose proof (update_metrics_present _ _ _ _ _ _ _ Hu Hh Hc) as H2.
      destruct r1 as [[]|e]; rewrite Hinv in Hp; by injection Hp as <- _.
    - rewrite Hinv in Hp. by injection Hp as <- _. }
  destruct H1 as [Hh1 Hk1].
  destruct (process_status_keys E _ _ _ _ _ _ Hp) as (_ & Hw1 & _).
  rewrite clear_expired_metrics_inv.
  destruct (sweep_healthy E (time_time E (ticks s1))
              (Worker.expiration_threshold w1) _
              {| ticks := S (ticks s1); trace := trace s1 |} Hh1)
    as (l' & s' & Hs & Hh').
  rewrite Hs. exists (Worker.with_metrics_collector l' w1), s'.
  destruct (sweep_keys E _ _ _ _ _ _ _ Hs) as [Hk' _].
  split_and!; [done | done | simpl; congruence |].
  simpl. by rewrite Hw1.
Qed.

(** X10: when every entry of the registry is a handle with an update time
    and every configured key has its handle, the loop never ends with an
    exception, whatever the refreshes do and whatever values are
    reported; the registry stays of that kind and no longer grows. *)
Theorem healthy_complete_loop_never_crashes M M' :
  healthy (Worker.metrics_collector (Worker.worker M)) →
  complete (Worker.device_metrics (Worker.worker M))
    (Worker.metrics_collector (Worker.worker M)) →
  (∀ e, Worker.at_pc M ≠ Worker.Crashed e) →
  rtc (Worker.step E) M M' →
  (∀ e, Worker.at_pc M' ≠ Worker.Crashed e)
  ∧ healthy (Worker.metrics_collector (Worker.worker M'))
  ∧ keys (Worker.metrics_collector (Worker.worker M'))
    = keys (Worker.metrics_collector (Worker.worker M)).
Proof.
  intros Hh Hc Hpc Hrun.
  induction Hrun as [M|M1 M2 M3 [i H12] _ IH]; [done|].
  assert (H2 : (∀ e, Worker.at_pc M2 ≠ Worker.Crashed e)
               ∧ healthy (Worker.metrics_collector (Worker.worker M2))
               ∧ keys (Worker.metrics_collector (Worker.worker M2))
                 = keys (Worker.metrics_collector (Worker.worker M1))
               ∧ Worker.device_metrics (Worker.worker M2)
                 = Worker.device_metrics (Worker.worker M1)).
  { apply step_fn_inv in H12
      as [(_ & ->)|[(_ & _ & ->)|[(r & res & w & s & _ & _ & Hcy & ->)|(_ & _ & ->)]]];
      simpl; try done.
    - split_and!; try done. by destruct (Worker.running _).
    - destruct (cycle_healthy_complete r _ (Worker.sys M1) Hh Hc)
        as (w' & s' & Hcy' & Hh' & Hk' & Hm').
      rewrite Hcy' in Hcy. by injection Hcy as <- <- <-. }
  destruct H2 as (Hpc2 & Hh2 & Hk2 & Hm2).
  destruct IH as (Hpc3 & Hh3 & Hk3); [done| |done|].
  - rewrite Hm2. apply (complete_keys _ _ _ (reflexivity _)) in Hc.
    by apply (complete_keys _ (Worker.metrics_collector (Worker.worker M1)));
      [rewrite Hk2|].
  - split_and!; [done | done | congruence].
Qed.

Lemma set_accepted v m s :
  accepted E v →
  (SmartThingsMetric.value m = VNone ∨ has_update_time (Some m)) →
  ∃ m' s', SmartThingsMetric.set E v m s = (Val tt, m', s')
           ∧ has_update_time (Some m').
Proof.
  intros [x Hx] Hm.
  destruct (decide (SmartThingsMetric.value m = v)) as [Heq|Hne].
  - rewrite (set_unchanged E _ _ _ Heq). do 2 eexists. split; [done|].
    destruct Hm as [Hnone|Ht]; [|done].
    rewrite Hnone in Heq. by subst v.
  - rewrite (set_changed E _ _ _ _ Hne Hx). do 2 eexists. split; [done|].
    by eexists _, _.
Qed.

Lemma update_metric_good values k w s :
  healthy (Worker.metrics_collector w) →
  accepted E (Worker.values_get values k) →
  Gauge_init E ("smartthings_" +:+ k) = None →
  ∃ w' s',
    Worker.update_metric E values k w s = (Val tt, w', s')
    ∧ healthy (Worker.metrics_collector w')
    ∧ ∃ i, keys (Worker.metrics_collector w') !! i = Some (Some k).
Proof.
  intros Hh Hacc Hinit.
  unfold Worker.update_metric, Worker.bind.
  pose proof (get_metric_cases E k w s) as Hc.
  destruct (Worker.find_metric k (Worker.metrics_collector w))
    as [[[i m]|]|e] eqn:Hf.
  - rewrite Hc. destruct (find_metric_Some _ _ _ _ Hf) as [Hi Hk].
    unfold Worker.set_at. rewrite Hi.
    destruct (set_accepted (Worker.values_get values k) m
                (emit (Log DEBUG (MsgFound (SmartThingsMetric.name m) k)) s)
                Hacc) as (m' & s' & Hset & Ht).
    { right. unfold healthy in Hh. rewrite Forall_lookup in Hh.
      by apply (Hh i). }
    rewrite Hset. do 2 eexists. split; [done|]. simpl. split.
    + by apply Forall_insert.
    + exists i. rewrite keys_lookup, list_lookup_insert_eq
        by (by eapply lookup_lt_Some). simpl.
      by destruct (set_payload_key E _ _ _ _ _ _ Hset) as (-> & _); rewrite Hk.
  - unfold SmartThingsMetric.init in Hc. rewrite Hinit in Hc. rewrite Hc.
    unfold Worker.set_at. simpl.
    rewrite lookup_app_r, Nat.sub_diag by done. simpl.
    match goal with |- context [SmartThingsMetric.set E ?v ?m ?t] =>
      destruct (set_accepted v m t Hacc) as (m' & s' & Hset & Ht);
        [by left|] end.
    rewrite Hset. do 2 eexists. split; [done|]. simpl.
    assert (Hins : <[length (Worker.metrics_collector w) := Some m']>
                     (Worker.metrics_collector w ++ [Some
                        {| SmartThingsMetric.payload_key := k;
                           SmartThingsMetric.device_name := Worker.device_name w;
                           SmartThingsMetric.name := "smartthings_" +:+ k;
                           SmartThingsMetric.metric := ∅;
                           SmartThingsMetric.value := VNone;
                           SmartThingsMetric.last_update_time := None |}])
                   = Worker.metrics_collector w ++ [Some m']).
    { rewrite insert_app_r_alt, Nat.sub_diag by done. done. }
    rewrite Hins. split.
    + apply Forall_app. split; [done|]. by constructor.
    + exists (length (Worker.metrics_collector w)).
      rewrite keys_lookup, lookup_app_r, Nat.sub_diag by done. simpl.
      by destruct (set_payload_key E _ _ _ _ _ _ Hset) as (-> & _).
  - by destruct (find_metric_healthy k _ e Hh).
Qed.

Lemma update_metrics_good values ks : ∀ w s,
  healthy (Worker.metrics_collector w) →
  reports_all E values ks →
  ∃ w' s',
    Worker.update_metrics E values ks w s = (Val tt, w', s')
    ∧ healthy (Worker.metrics_collector w')
    ∧ complete ks (Worker.metrics_collector w').
Proof.
  induction ks as [|k ks IH]; intros w s Hh Hgood.
  - exists w, s. split_and!; [done|done|]. intros k Hk. by apply elem_of_nil in Hk.
  - rewrite update_metrics_cons.
    destruct (Hgood k) as [Hacc Hinit]; [by left|].
    destruct (update_metric_good values k w s Hh Hacc Hinit)
      as (w1 & s1 & -> & Hh1 & Hk1).
    destruct (IH w1 s1 Hh1) as (w' & s' & Hu & Hh' & Hc').
    { intros k' Hk'. apply Hgood. by right. }
    rewrite Hu. exists w', s'. split_and!; [done|done|].
    destruct (update_metrics_keys E _ _ _ _ _ _ _ Hu) as [[tl Hpre] _].
    intros k' Hk'. apply elem_of_cons in Hk' as [->|Hk']; [|by apply Hc'].
    apply has_key_iff. destruct Hk1 as [i Hi]. exists i.
    rewrite Hpre. by apply lookup_app_l_Some.
Qed.

(** X11: a cycle whose status has, for every configured key, a value the
    gauge accepts returns, whatever healthy registry it starts from (the
    empty one of a new worker included), provided the handles can be
    constructed; afterwards every configured key has a handle and every
    handle has an update time. *)
Theorem good_status_makes_registry_healthy values w s :
  healthy (Worker.metrics_collector w) →
  reports_all E values (Worker.device_metrics w) →
  ∃ w' s',
    Worker.cycle E (Worker.Refreshed values) w s = (Val tt, w', s')
    ∧ healthy (Worker.metrics_collector w')
    ∧ complete (Worker.device_metrics w') (Worker.metrics_collector w').
Proof.
  intros Hh Hgood.
  destruct (update_metrics_good values _ w s Hh Hgood)
    as (w1 & s1 & Hu & Hh1 & Hc1).
  pose proof (process_status_inv E (Worker.Refreshed values) w s) as Hp.
  simpl in Hp. rewrite Hu in Hp.
  unfold Worker.cycle, Worker.bind. rewrite Hp.
  rewrite clear_expired_metrics_inv.
  destruct (sweep_healthy E (time_time E (ticks s1))
              (Worker.expiration_threshold w1) _
              {| ticks := S (ticks s1); trace := trace s1 |} Hh1)
    as (l' & s' & Hs & Hh').
  rewrite Hs. exists (Worker.with_metrics_collector l' w1), s'.
  destruct (sweep_keys E _ _ _ _ _ _ _ Hs) as [Hk' _].
  destruct (update_metrics_keys E _ _ _ _ _ _ _ Hu) as [_ Hw1].
  split_and!; [done | done |]. simpl.
  rewrite Hw1. simpl.
  apply (complete_keys _ (Worker.metrics_collector w1)); [by rewrite Hk'|done].
Qed.

(** A key whose handle is at position [i] and holds the reported value. *)
Lemma update_metric_same_value values k w s r w' s' i m :
  Worker.update_metric E values k w s = (r, w', s') →
  one_handle_per_key (Worker.metrics_collector w) →
  Worker.metrics_collector w !! i = Some (Some m) →
  (k = SmartThingsMetric.payload_key m →
   Worker.values_get values k = SmartThingsMetric.value m) →
  Worker.metrics_collector w' !! i = Some (Some m).
Proof.
  intros Hu Hone Hi Hsame.
  destruct (decide (SmartThingsMetric.payload_key m = k)) as [Hk|Hk].
  - apply update_metric_inv in Hu as (rg & w1 & s1 & Hget & Hrest).
    pose proof (get_metric_cases E k w s) as Hc.
    destruct (Worker.find_metric k (Worker.metrics_collector w))
      as [[[i0 m0]|]|e] eqn:Hf.
    + rewrite Hc in Hget. injection Hget as <- <- <-.
      destruct (find_metric_Some _ _ _ _ Hf) as [Hi0 Hk0].
      assert (i0 = i) as -> by (apply (Hone i0 i m0 m); congruence).
      apply set_at_inv in Hrest
        as [(m1 & m' & Hi1 & Hset & ->)|(_ & -> & _)]; [|done].
      assert (m1 = m) as -> by congruence.
      rewrite set_unchanged in Hset by (symmetry; by apply Hsame).
      injection Hset as _ <- _. simpl. by rewrite list_insert_id.
    + pose proof (find_metric_None _ _ Hf) as Hall.
      rewrite Forall_lookup in Hall.
      destruct (Hall _ _ Hi) as (m0 & [= <-] & Hne). done.
    + rewrite Hc in Hget. injection Hget as <- <- <-.
      by destruct Hrest as (_ & -> & _).
  - apply (update_metric_frame E _ _ _ _ _ _ _ _ _ Hu Hi).
    by intros m0 [= <-].
Qed.

(** X12: a handle whose key is reported with the value the handle already
    holds comes out of the protected region exactly as it went in, in
    particular with its old [last_update_time], whatever happens to the
    other keys: reporting an unchanged value does not keep a handle from
    expiring. *)
Theorem unchanged_report_leaves_handle values w s r w' s' i m :
  one_handle_per_key (Worker.metrics_collector w) →
  Worker.metrics_collector w !! i = Some (Some m) →
  Worker.values_get values (SmartThingsMetric.payload_key m)
  = SmartThingsMetric.value m →
  Worker.process_status E (Worker.Refreshed values) w s = (r, w', s') →
  Worker.metrics_collector w' !! i = Some (Some m).
Proof.
  intros Hone Hi Hsame Hp.
  assert (Hloop : ∀ ks w0 s0 r0 w1 s1,
            Worker.update_metrics E values ks w0 s0 = (r0, w1, s1) →
            one_handle_per_key (Worker.metrics_collector w0) →
            Worker.metrics_collector w0 !! i = Some (Some m) →
            Worker.metrics_collector w1 !! i = Some (Some m)).
  { induction ks as [|k ks IH]; intros w0 s0 r0 w1 s1 Hu Hone0 Hi0.
    - by injection Hu as <- <- <-.
    - rewrite update_metrics_cons in Hu.
      destruct (Worker.update_metric E values k w0 s0) as [[r2 w2] s2] eqn:H2.
      assert (Hi2 : Worker.metrics_collector w2 !! i = Some (Some m)).
      { apply (update_metric_same_value _ _ _ _ _ _ _ _ _ H2 Hone0 Hi0).
        by intros ->. }
      pose proof (update_metric_one_handle_per_key E _ _ _ _ _ _ _ H2 Hone0).
      destruct r2 as [[]|e]; [by eapply IH | by injection Hu as <- <- <-]. }
  pose proof (process_status_inv E (Worker.Refreshed values) w s) as Hinv.
  simpl in Hinv.
  destruct (Worker.update_metrics E values (Worker.device_metrics w) w s)
    as [[r1 w1] s1] eqn:Hu.
  pose proof (Hloop _ _ _ _ _ _ Hu Hone Hi) as Hi1.
  destruct r1 as [[]|e]; rewrite Hinv in Hp; by injection Hp as _ <- _.
Qed.

End Healthy.
(** ** Start-up *)

Section StartupFacts.

Lemma split_cons_sep sep s :
  Startup.split sep (String sep s) = EmptyString :: Startup.split sep s.
Proof. simpl. by rewrite decide_True. Qed.

Lemma split_not_nil sep s : Startup.split sep s ≠ [].
Proof.
  destruct s as [|c s]; [done|]. simpl.
  destruct (decide (c = sep)); [done|].
  by destruct (Startup.split sep s).
Qed.

Lemma split_cons_other sep c s :
  c ≠ sep →
  ∃ part parts, Startup.split sep s = part :: parts
                ∧ Startup.split sep (String c s) = String c part :: parts.
Proof.
  intros Hc. simpl. rewrite decide_False by done.
  destruct (Startup.split sep s) as [|part parts] eqn:Hs.
  - by destruct (split_not_nil sep s).
  - by exists part, parts.
Qed.

Lemma join_cons sep part part' parts :
  join sep (part :: part' :: parts)
  = part +:+ String sep (join sep (part' :: parts)).
Proof. done. Qed.

Lemma join_cons_char sep c part parts :
  join sep (String c part :: parts) = String c (join sep (part :: parts)).
Proof. by destruct parts. Qed.

(** X13: [split] and [join] are inverse on the side of the string:
    joining the parts of a string with the separator gives the string
    back; there is one part more than there are separators in the string,
    so there is always at least one part, and no part contains the
    separator. *)
Theorem join_split_round_trip sep s :
  join sep (Startup.split sep s) = s
  ∧ length (Startup.split sep s) = S (occurrences sep s)
  ∧ Forall (λ part, occurrences sep part = 0%nat) (Startup.split sep s).
Proof.
  induction s as [|c s (IHj & IHl & IHf)]; [by repeat constructor|].
  destruct (decide (c = sep)) as [->|Hc].
  - rewrite split_cons_sep. simpl. rewrite decide_True by done.
    split_and!.
    + destruct (Startup.split sep s) as [|part parts] eqn:Hs;
        [by destruct (split_not_nil sep s)|].
      by rewrite <- IHj.
    + by rewrite IHl.
    + by constructor.
  - destruct (split_cons_other sep c s Hc) as (part & parts & Hs & ->).
    rewrite Hs in IHj, IHl, IHf. split_and!.
    + by rewrite join_cons_char, IHj.
    + simpl in *. by rewrite decide_False.
    + apply Forall_cons in IHf as [Hpart Hparts]. constructor; [|done].
      simpl. by rewrite decide_False.
Qed.

(** X14: conversely, a non-empty list of parts none of which contains the
    separator is what [split] returns for the joined string. *)
Theorem split_join_round_trip sep parts :
  parts ≠ [] →
  Forall (λ part, occurrences sep part = 0%nat) parts →
  Startup.split sep (join sep parts) = parts.
Proof.
  induction parts as [|part parts IH]; [done|]. intros _ Hall.
  apply Forall_cons in Hall as [Hpart Hparts].
  destruct parts as [|part' parts].
  - clear IH Hparts. change (join sep [part]) with part.
    induction part as [|c part IHp]; [done|].
    simpl in Hpart. destruct (decide (c = sep)) as [|Hc]; [done|].
    destruct (split_cons_other sep c part Hc) as (p & ps & Hs & ->).
    rewrite (IHp Hpart) in Hs. by injection Hs as <- <-.
  - rewrite join_cons. specialize (IH ltac:(done) Hparts).
    induction part as [|c part IHp].
    + change (EmptyString +:+ ?t) with t. by rewrite split_cons_sep, IH.
    + simpl in Hpart. destruct (decide (c = sep)) as [|Hc]; [done|].
      change (String c part +:+ ?t) with (String c (part +:+ t)).
      destruct (split_cons_other sep c
                  (part +:+ String sep (join sep (part' :: parts))) Hc)
        as (p & ps & Hs & ->).
      rewrite (IHp Hpart) in Hs. by injection Hs as <- <-.
Qed.

Variable int : string → option Z.

Implicit Types environ : gmap string string.

Lemma load_env_variable_cases environ name :
  Startup.load_env_variable environ name None
  = match environ !! name with
    | Some value => (Startup.Ok value, [])
    | None => (Startup.SystemExit 1, [Startup.Required name])
    end.
Proof.
  unfold Startup.load_env_variable, Startup.getenv.
  by destruct (environ !! name).
Qed.

(** X15: the configuration part of [main] ends with [sys.exit(1)] exactly
    when one of DEVICE_ID, DEVICE_METRICS and SMARTTHINGS_TOKEN is not
    set, whatever the other variables hold; it then has logged one record,
    which names the first of the three, in this order, that is missing,
    and it exits in no other way. *)
Theorem missing_setting_exits_with_1 environ :
  (Startup.configure int environ
   = (Startup.SystemExit 1, [Startup.Required "DEVICE_ID"])
   ↔ environ !! "DEVICE_ID" = None)
  ∧ (Startup.configure int environ
     = (Startup.SystemExit 1, [Startup.Required "DEVICE_METRICS"])
     ↔ is_Some (environ !! "DEVICE_ID")
       ∧ environ !! "DEVICE_METRICS" = None)
  ∧ (Startup.configure int environ
     = (Startup.SystemExit 1, [Startup.Required "SMARTTHINGS_TOKEN"])
     ↔ is_Some (environ !! "DEVICE_ID")
       ∧ is_Some (environ !! "DEVICE_METRICS")
       ∧ environ !! "SMARTTHINGS_TOKEN" = None)
  ∧ (∀ code records,
       Startup.configure int environ = (Startup.SystemExit code, records) →
       code = 1
       ∧ ∃ name, records = [Startup.Required name] ∧ environ !! name = None
                 ∧ name ∈ ["DEVICE_ID"; "DEVICE_METRICS"; "SMARTTHINGS_TOKEN"]).
Proof.
  unfold Startup.configure. rewrite !load_env_variable_cases.
  unfold Startup.int_env.
  destruct (environ !! "DEVICE_ID") as [device_id|] eqn:H1;
    destruct (environ !! "DEVICE_METRICS") as [ms|] eqn:H2;
    destruct (environ !! "SMARTTHINGS_TOKEN") as [tok|] eqn:H3;
    repeat match goal with
           | |- context [int ?x] => destruct (int x)
           end;
    (split_and!;
     [ split; [done | by intros ?]
     | split; [done | by intros [[? ?] ?] || by intros [? ?]]
     | split; [done | by intros ([? ?] & [? ?] & ?) || by intros (? & [? ?] & ?) || by intros ([? ?] & ? & ?) || by intros (? & ? & ?)]
     | intros code records [= <- <-] || intros code records [=] ]);
    try (split; [done|]); try by set_solver.
Qed.

(** X16: when the three required variables are set, the configuration ends
    either with the [ValueError] of [int], which nobody catches, exactly
    when one of the three numbers does not convert, or with a new worker:
    running, with an empty registry, at least one key, and the device
    identifier as device label when DEVICE_NAME is not set.  The numbers
    are those of the variables, or of the defaults 9090, 30 and 300. *)
Theorem configured_worker_is_new environ device_id device_metrics token :
  environ !! "DEVICE_ID" = Some device_id →
  environ !! "DEVICE_METRICS" = Some device_metrics →
  environ !! "SMARTTHINGS_TOKEN" = Some token →
  match int (Startup.getenv_str environ "EXPORTER_PORT" "9090"),
        int (Startup.getenv_str environ "COLLECTING_INTERVAL" "30"),
        int (Startup.getenv_str environ "EXPIRATION_THRESHOLD" "300") with
  | Some port, Some interval, Some threshold =>
      ∃ cfg,
        Startup.configure int environ = (Startup.Ok cfg, [])
        ∧ Startup.exporter_port cfg = port
        ∧ Worker.collecting_interval_seconds (Startup.metrics cfg) = interval
        ∧ Worker.expiration_threshold (Startup.metrics cfg) = threshold
        ∧ Worker.running (Startup.metrics cfg) = true
        ∧ Worker.metrics_collector (Startup.metrics cfg) = []
        ∧ Worker.device_id (Startup.metrics cfg) = device_id
        ∧ Worker.smartthings_token (Startup.metrics cfg) = token
        ∧ Worker.device_metrics (Startup.metrics cfg)
          = Startup.split "," device_metrics
        ∧ Worker.device_metrics (Startup.metrics cfg) ≠ []
        ∧ Worker.device_name (Startup.metrics cfg)
          = default device_id (environ !! "DEVICE_NAME")
  | _, _, _ =>
      Startup.configure int environ = (Startup.Uncaught ValueError, [])
  end.
Proof.
  intros H1 H2 H3.
  unfold Startup.configure. rewrite !load_env_variable_cases, H1, H2, H3.
  unfold Startup.int_env.
  destruct (int (Startup.getenv_str environ "EXPORTER_PORT" "9090"));
    [|done].
  destruct (int (Startup.getenv_str environ "COLLECTING_INTERVAL" "30"));
    [|done].
  destruct (int (Startup.getenv_str environ "EXPIRATION_THRESHOLD" "300"));
    [|done].
  eexists. split; [done|]. simpl. split_and!; try done.
  all: first [ apply split_not_nil
             | unfold Startup.getenv_str;
               by destruct (environ !! "DEVICE_NAME") ].
Qed.

End StartupFacts.

Lemma split_join_round_trip_witness :
  Startup.split "," (join "," ["switch"; ""; "level"])
  = ["switch"; ""; "level"].
Proof.
  apply split_join_round_trip; [discriminate|].
  repeat constructor.
Defined.

Lemma configured_worker_is_new_witness :
  ∃ cfg,
    Startup.configure decimal minimal_environ = (Startup.Ok cfg, [])
    ∧ Startup.exporter_port cfg = 9090
    ∧ Worker.collecting_interval_seconds (Startup.metrics cfg) = 30
    ∧ Worker.expiration_threshold (Startup.metrics cfg) = 300
    ∧ Worker.running (Startup.metrics cfg) = true
    ∧ Worker.metrics_collector (Startup.metrics cfg) = []
    ∧ Worker.device_id (Startup.metrics cfg) = "d1"
    ∧ Worker.smartthings_token (Startup.metrics cfg) = "t"
    ∧ Worker.device_metrics (Startup.metrics cfg)
      = Startup.split "," "switch,level"
    ∧ Worker.device_metrics (Startup.metrics cfg) ≠ []
    ∧ Worker.device_name (Startup.metrics cfg) = "d1".
Proof.
  exact (configured_worker_is_new decimal
           minimal_environ
           "d1" "switch,level" "t" eq_refl eq_refl eq_refl).
Defined.
(** ** The further statements at concrete inputs *)

Lemma run_rtc E inputs : ∀ M M',
  Worker.run E inputs M = Some M' → rtc (Worker.step E) M M'.
Proof.
  induction inputs as [|i inputs IH]; intros M M' Hrun; simpl in Hrun.
  - injection Hrun as <-. apply rtc_refl.
  - destruct (Worker.step_fn E i M) as [M1|] eqn:Hstep; [|done].
    eapply rtc_l; [by exists i | by apply IH].
Qed.

Lemma only_configured_keys_get_handles_witness :
  ∃ M,
    Worker.run plain
      [Worker.Resume; Worker.RefreshDone (Worker.Refreshed switch_on)]
      (Worker.loop_start (lamp ["switch"])) = Some M
    ∧ (∀ i m, Worker.metrics_collector (Worker.worker M) !! i = Some (Some m) →
         SmartThingsMetric.payload_key m ∈ ["switch"])
    ∧ (length (handles (Worker.metrics_collector (Worker.worker M))) ≤ 1)%nat.
Proof.
  eexists. split; [reflexivity|].
  apply (only_configured_keys_get_handles plain
           "token" "device-1" "lamp" ["switch"] 30 300).
  apply (run_rtc plain
           [Worker.Resume; Worker.RefreshDone (Worker.Refreshed switch_on)]).
  reflexivity.
Defined.

Lemma handle_names_derived_and_distinct_witness :
  ∃ M,
    Worker.run plain
      [Worker.Resume; Worker.RefreshDone (Worker.Refreshed switch_on)]
      (Worker.loop_start (lamp ["switch"])) = Some M
    ∧ ∀ i m, Worker.metrics_collector (Worker.worker M) !! i = Some (Some m) →
        SmartThingsMetric.name m
        = "smartthings_" +:+ SmartThingsMetric.payload_key m
        ∧ SmartThingsMetric.device_name m = "lamp".
Proof.
  eexists. split; [reflexivity|].
  apply (handle_names_derived_and_distinct plain
           "token" "device-1" "lamp" ["switch"] 30 300).
  apply (run_rtc plain
           [Worker.Resume; Worker.RefreshDone (Worker.Refreshed switch_on)]).
  reflexivity.
Defined.

Lemma registry_is_append_only_witness :
  ∃ M,
    Worker.run plain
      [Worker.Resume; Worker.RefreshDone (Worker.Refreshed switch_on)]
      (Worker.loop_start (lamp ["switch"])) = Some M
    ∧ (0 ≤ length (Worker.metrics_collector (Worker.worker M)))%nat
    ∧ same_settings (lamp ["switch"]) (Worker.worker M).
Proof.
  eexists. split; [reflexivity|].
  apply (registry_is_append_only plain (Worker.loop_start (lamp ["switch"]))).
  apply (run_rtc plain
           [Worker.Resume; Worker.RefreshDone (Worker.Refreshed switch_on)]).
  reflexivity.
Defined.

Lemma lamp_polled_healthy : healthy (Worker.metrics_collector lamp_polled).
Proof. repeat constructor. by eexists _, _. Defined.

Lemma lamp_polled_complete :
  complete (Worker.device_metrics lamp_polled)
    (Worker.metrics_collector lamp_polled).
Proof.
  intros k Hk. apply list_elem_of_singleton in Hk as ->.
  by exists 0%nat, (handle "switch" {["lamp" := 1]} (VInt 1) (Some 0)).
Defined.

Lemma healthy_complete_loop_never_crashes_witness :
  ∃ M,
    Worker.run plain
      [Worker.RefreshDone (Worker.RefreshFailed (ClientError "timeout"));
       Worker.SleepDone; Worker.Resume;
       Worker.RefreshDone (Worker.Refreshed ∅)]
      {| Worker.at_pc := Worker.AwaitRefresh;
         Worker.worker := lamp_polled;
         Worker.sys := sys0 |} = Some M
    ∧ (∀ e, Worker.at_pc M ≠ Worker.Crashed e)
    ∧ healthy (Worker.metrics_collector (Worker.worker M)).
Proof.
  eexists. split; [reflexivity|].
  eassert (Hrun : rtc (Worker.step plain)
                    {| Worker.at_pc := Worker.AwaitRefresh;
                       Worker.worker := lamp_polled;
                       Worker.sys := sys0 |} _).
  { apply (run_rtc plain
             [Worker.RefreshDone (Worker.RefreshFailed (ClientError "timeout"));
              Worker.SleepDone; Worker.Resume;
              Worker.RefreshDone (Worker.Refreshed ∅)]).
    reflexivity. }
  destruct (healthy_complete_loop_never_crashes plain
              {| Worker.at_pc := Worker.AwaitRefresh;
                 Worker.worker := lamp_polled;
                 Worker.sys := sys0 |} _
              lamp_polled_healthy lamp_polled_complete
              ltac:(discriminate) Hrun)
    as (Hpc & Hh & _).
  by split.
Defined.

Lemma good_status_makes_registry_healthy_witness :
  ∃ w' s',
    Worker.cycle plain (Worker.Refreshed switch_on) (lamp ["switch"]) sys0
    = (Val tt, w', s')
    ∧ healthy (Worker.metrics_collector w')
    ∧ complete (Worker.device_metrics w') (Worker.metrics_collector w').
Proof.
  apply (good_status_makes_registry_healthy plain switch_on
           (lamp ["switch"]) sys0).
  - constructor.
  - intros k Hk. apply list_elem_of_singleton in Hk as ->.
    split; [by exists 1 | reflexivity].
Defined.

Lemma unchanged_report_leaves_handle_witness :
  ∃ w' s',
    Worker.process_status plain (Worker.Refreshed switch_on) lamp_polled sys0
    = (Val tt, w', s')
    ∧ Worker.metrics_collector w' !! 0%nat
      = Some (Some (handle "switch" {["lamp" := 1]} (VInt 1) (Some 0))).
Proof.
  do 2 eexists. split; [reflexivity|].
  eapply (unchanged_report_leaves_handle plain switch_on lamp_polled sys0
            _ _ _ 0%nat (handle "switch" {["lamp" := 1]} (VInt 1) (Some 0))).
  - intros [|i] [|j] m1 m2 Hi Hj _; try done;
      simpl in Hi, Hj; by rewrite ?lookup_nil in *.
  - reflexivity.
  - reflexivity.
  - reflexivity.
Defined.

Lemma cleared_value_not_republished_witness :
  ∃ self' s',
    SmartThingsMetric.set plain (VInt 2)
      (SmartThingsMetric.clear plain
         (handle "switch" {["lamp" := 1]} (VInt 1) (Some 0)) sys0).1 sys0
    = (Val tt, self', s')
    ∧ published self' = Some 2
    ∧ SmartThingsMetric.value self' = VInt 2.
Proof.
  apply (proj2 (proj2 (cleared_value_not_republished plain
                         (handle "switch" {["lamp" := 1]} (VInt 1) (Some 0))
                         sys0 sys0)) (VInt 2) 2);
    [discriminate | reflexivity].
Defined.

Lemma sweep_returns_iff_healthy_witness :
  ∃ e w' s',
    Worker.clear_expired_metrics plain
      (Worker.with_metrics_collector
         [Some (handle "switch" ∅ VNone None)] (lamp ["switch"])) sys0
    = (Raise e, w', s')
    ∧ (e = TypeError ∨ e = AttributeError).
Proof.
  apply (proj2 (proj2 (sweep_returns_iff_healthy plain
                         (Worker.with_metrics_collector
                            [Some (handle "switch" ∅ VNone None)]
                            (lamp ["switch"]))
                         sys0))).
  intros Hh. apply Forall_cons in Hh as [(m & u & Hm & Hu) _].
  injection Hm as <-. discriminate.
Defined.

Lemma missing_setting_exits_with_1_witness :
  Startup.configure decimal (delete "DEVICE_METRICS" minimal_environ)
  = (Startup.SystemExit 1, [Startup.Required "DEVICE_METRICS"]).
Proof.
  apply (proj1 (proj2 (missing_setting_exits_with_1 decimal
                         (delete "DEVICE_METRICS" minimal_environ)))).
  split; [by exists "d1" | reflexivity].
Defined.
